(** * UniSwap V3 swap observation service: amounts, rows and batches

    A shallow embedding of [app/services/uniswap_v3/service.py]
    ([UniSwapV3WSSService] and [UniSwapV3HTTPService]) together with the
    part of the Python semantics the service relies on: true division of
    two [int]s, which produces a binary64 [float], exceptions, list
    comprehensions and a generator with a single [yield]. *)

From Stdlib Require Import ZArith NArith QArith Qabs List String Ascii Bool Lia.
From Stdlib Require Import SpecFloat Lqa.
Import ListNotations.

Local Open Scope Z_scope.

(** ** Python exceptions and the exception monad *)

Inductive exn : Type :=
| OverflowError
| ZeroDivisionError
| BlockNotFound
| ValueError
| OSError.

Inductive result (A : Type) : Type :=
| Ok (a : A)
| Raise (e : exn).

Arguments Ok {A} a.
Arguments Raise {A} e.

Definition bind {A B : Type} (c : result A) (k : A -> result B) : result B :=
  match c with
  | Ok a => k a
  | Raise e => Raise e
  end.

Notation "x <- c ;; k" := (bind c (fun x => k))
  (at level 61, c at next level, right associativity).

(** A list comprehension [[f x for x in xs]] whose element expression may
    raise: elements are evaluated in order and the first exception leaves
    the comprehension, discarding the elements built so far. *)
Fixpoint list_comprehension {A B : Type} (f : A -> result B) (xs : list A)
  : result (list B) :=
  match xs with
  | [] => Ok []
  | x :: xs' =>
      y <- f x ;;
      ys <- list_comprehension f xs' ;;
      Ok (y :: ys)
  end.

(** ** Python floats and [int / int]

    A Python [float] is an IEEE-754 binary64 number; [spec_float] of the
    standard library gives its sign, its integer mantissa [m] and its
    exponent [e], the value being [m * 2^e].  The true division of two
    [int]s returns the float nearest to the exact quotient, ties going to
    the even mantissa; it raises [ZeroDivisionError] on a zero divisor and
    [OverflowError] when the rounded quotient reaches [2^1024]. *)

Module Float.

Definition float : Type := spec_float.

(** Mantissa width, exponent of the least subnormal, and the largest
    exponent a 53-bit mantissa may carry. *)
Definition prec : Z := 53.
Definition emin : Z := -1074.
Definition emax_mant : Z := 971.

(** The fraction [n / (d * 2^e)] kept as an integer numerator and an
    integer denominator. *)
Definition num_at (n e : Z) : Z := n * 2 ^ Z.max 0 (- e).
Definition den_at (d e : Z) : Z := d * 2 ^ Z.max 0 e.

(** Nearest integer to [n / d] for [0 <= n] and [0 < d], ties to even. *)
Definition rne_div (n d : Z) : Z :=
  let q := n / d in
  let r2 := 2 * (n mod d) in
  if r2 <? d then q
  else if d <? r2 then q + 1
  else if Z.even q then q else q + 1.

(** [floor (log2 (n / d))] for [0 < n] and [0 < d]. *)
Definition quot_log2 (n d : Z) : Z :=
  let k := Z.log2 n - Z.log2 d in
  if den_at d k <=? num_at n k then k else k - 1.

Definition int_truediv (a b : Z) : result float :=
  if b =? 0 then Raise ZeroDivisionError
  else
    let negate := xorb (a <? 0) (b <? 0) in
    let n := Z.abs a in
    let d := Z.abs b in
    if n =? 0 then Ok (S754_zero negate)
    else
      let e := Z.max (quot_log2 n d - (prec - 1)) emin in
      let m := rne_div (num_at n e) (den_at d e) in
      let '(m, e) := if m =? 2 ^ prec then (2 ^ (prec - 1), e + 1) else (m, e) in
      if emax_mant <? e then Raise OverflowError
      else
        match m with
        | Zpos p => Ok (S754_finite negate p e)
        | _ => Ok (S754_zero negate)
        end.

(** The rational number a float stands for. *)
Definition to_Q (f : float) : Q :=
  match f with
  | S754_finite s m e =>
      let z := if s then Zneg m else Zpos m in
      match e with
      | Z0 => z # 1
      | Zpos k => (z * Zpos (2 ^ k)) # 1
      | Zneg k => z # (2 ^ k)
      end
  | _ => 0%Q
  end.

(** Sign of the value: [-1], [0] or [1]; both zeros compare equal to 0. *)
Definition sgn (f : float) : Z :=
  match f with
  | S754_finite true _ _ => -1
  | S754_finite false _ _ => 1
  | S754_infinity true => -1
  | S754_infinity false => 1
  | _ => 0
  end.

(** The floats [1.0], [-2.5] and [1000000000000.0]. *)
Definition one : float := S754_finite false 4503599627370496 (-52).
Definition minus_two_and_a_half : float := S754_finite true 5629499534213120 (-51).
Definition ten_to_the_12 : float := S754_finite false 8192000000000000 (-13).

End Float.

Import Float.

(** ** Data handed over by web3

    [LogReceipt] is the decoded [Swap] log: [swap.args] carries the
    recipient and the two signed raw legs, [transactionHash] is a
    [HexBytes] value and [blockNumber] an [int]. *)

Record SwapArgs : Type := {
  recipient : string;
  amount0 : Z;
  amount1 : Z
}.

Record LogReceipt : Type := {
  args : SwapArgs;
  transactionHash : list Byte.byte;
  blockNumber : Z
}.

Record Block : Type := {
  timestamp : Z
}.

(** [bytes.hex()]: two lowercase hexadecimal digits per byte. *)
Definition hex_digit (n : N) : ascii :=
  match n with
  | 0%N => "0" | 1%N => "1" | 2%N => "2" | 3%N => "3"
  | 4%N => "4" | 5%N => "5" | 6%N => "6" | 7%N => "7"
  | 8%N => "8" | 9%N => "9" | 10%N => "a" | 11%N => "b"
  | 12%N => "c" | 13%N => "d" | 14%N => "e" | _ => "f"
  end%char.

Fixpoint bytes_hex (bs : list Byte.byte) : string :=
  match bs with
  | [] => EmptyString
  | b :: bs' =>
      let n := Byte.to_N b in
      String (hex_digit (n / 16)) (String (hex_digit (n mod 16)) (bytes_hex bs'))
  end.

(** ** The repository a service class is bound to

    [app.adapters.repositories.uniswap_v3.repository] is not part of the
    service module; the service reads these attributes of it.  The token
    decimals are what the ERC-20 [decimals()] call returned, a [uint8]
    decoded to a non-negative [int].  [F] is the state of the [_blocks]
    log filter, which [get_new_entries] reads and updates. *)

Record Repository (F : Type) : Type := {
  _token0_decimals : N;
  _token1_decimals : N;
  _token0_symbol : string;
  _token1_symbol : string;
  _contract_address : string;
  get_block : Z -> result Block;
  get_new_entries : F -> list LogReceipt * F
}.

Arguments _token0_decimals {F} _.
Arguments _token1_decimals {F} _.
Arguments _token0_symbol {F} _.
Arguments _token1_symbol {F} _.
Arguments _contract_address {F} _.
Arguments get_block {F} _ _.
Arguments get_new_entries {F} _ _.

(** Two repositories expose the same data when their attributes agree and
    their calls answer alike. *)
Definition same_data {F : Type} (r1 r2 : Repository F) : Prop :=
  _token0_decimals r1 = _token0_decimals r2 /\
  _token1_decimals r1 = _token1_decimals r2 /\
  _token0_symbol r1 = _token0_symbol r2 /\
  _token1_symbol r1 = _token1_symbol r2 /\
  _contract_address r1 = _contract_address r2 /\
  (forall n, get_block r1 n = get_block r2 n) /\
  (forall st, get_new_entries r1 st = get_new_entries r2 st).

(** A service object: [iService] subclasses differ in the class attribute
    [_repository]. *)
Record iService (F : Type) : Type := {
  _repository : Repository F
}.

Arguments _repository {F} _.

(** One row of the observation: chain, pool address, recipient, token0
    symbol, token1 symbol, amount0, amount1, transaction hash, time. *)
Definition Row : Type :=
  (string * string * string * string * string * float * float * string * string)%type.

(** What running a generator to its end gives: the values it yielded, and
    whether it returned ([None]) or an exception left it. *)
Record Generated (A : Type) : Type := {
  yielded : list A;
  raised : option exn
}.

Arguments yielded {A} _.
Arguments raised {A} _.

Section Service.

Context {F : Type}.

(** [str(datetime.datetime.fromtimestamp(t))]: the local civil time of
    the POSIX time [t], or the exception [fromtimestamp] raises when [t]
    is out of the platform's range. *)
Variable civil_time : Z -> result string.

(** What [HexBytes.hex] puts before the digits ([0x] before hexbytes
    1.0, nothing since). *)
Variable hex_prefix : string.

Definition HexBytes_hex (h : list Byte.byte) : string :=
  (hex_prefix ++ bytes_hex h)%string.

Definition _amount0 (self : iService F) (is_reverse : bool) (swap : LogReceipt)
  : result float :=
  if negb is_reverse then
    int_truediv (amount0 (args swap))
                (10 ^ Z.of_N (_token0_decimals (_repository self)))
  else
    int_truediv (amount1 (args swap))
                (10 ^ Z.of_N (_token0_decimals (_repository self))).

Definition _amount1 (self : iService F) (is_reverse : bool) (swap : LogReceipt)
  : result float :=
  if negb is_reverse then
    int_truediv (amount1 (args swap))
                (10 ^ Z.of_N (_token1_decimals (_repository self)))
  else
    int_truediv (amount0 (args swap))
                (10 ^ Z.of_N (_token1_decimals (_repository self))).

(** The tuple built for one swap; its components are evaluated from
    left to right. *)
Definition row (self : iService F) (is_reverse : bool) (blockchain : string)
           (swap : LogReceipt) : result Row :=
  a0 <- _amount0 self is_reverse swap ;;
  a1 <- _amount1 self is_reverse swap ;;
  let h := HexBytes_hex (transactionHash swap) in
  blk <- get_block (_repository self) (blockNumber swap) ;;
  t <- civil_time (timestamp blk) ;;
  Ok (blockchain,
      _contract_address (_repository self),
      recipient (args swap),
      _token0_symbol (_repository self),
      _token1_symbol (_repository self),
      a0, a1, h, t).

(** [observe] run to exhaustion from filter state [st]: the list
    comprehension is evaluated whole before the single [yield]. *)
Definition observe (self : iService F) (is_reverse : bool) (blockchain : string)
           (st : F) : Generated (list Row) * F :=
  let '(entries, st') := get_new_entries (_repository self) st in
  match list_comprehension (row self is_reverse blockchain) entries with
  | Ok rows => ({| yielded := [rows]; raised := None |}, st')
  | Raise e => ({| yielded := []; raised := Some e |}, st')
  end.

(** The two service classes: [UniSwapV3HTTPService] inherits every
    method of [UniSwapV3WSSService] and rebinds [_repository]. *)
Variable UniSwapV3WSSRepository : Repository F.
Variable UniSwapV3HTTPRepository : Repository F.

Definition UniSwapV3WSSService : iService F :=
  {| _repository := UniSwapV3WSSRepository |}.

Definition UniSwapV3HTTPService : iService F :=
  {| _repository := UniSwapV3HTTPRepository |}.

End Service.

(** ** The scaling of the specification *)

(** [scale(x, d) = x / 10^d], divided the way the code divides. *)
Definition scale (x : Z) (d : N) : result float :=
  int_truediv x (10 ^ Z.of_N d).

(** The exact rational [x / 10^d]. *)
Definition exact_scale (x : Z) (d : N) : Q :=
  x # Z.to_pos (10 ^ Z.of_N d).

(** The raw leg that feeds output slot 0, and the one that feeds slot 1. *)
Definition leg0 (is_reverse : bool) (swap : LogReceipt) : Z :=
  if is_reverse then amount1 (args swap) else amount0 (args swap).

Definition leg1 (is_reverse : bool) (swap : LogReceipt) : Z :=
  if is_reverse then amount0 (args swap) else amount1 (args swap).

(** Equality of unordered pairs [{x, y} = {u, v}]. *)
Definition same_pair {A : Type} (p q : A * A) : Prop :=
  p = q \/ p = (snd q, fst q).

(** ** The log filter behind [get_new_entries] *)

Module PushFilter.

(** Modelled from the spec: the state of the push variant of EventSource,
    the swap logs accumulated server-side since the last drain; the
    repository's [_blocks] filter is not part of the service module. *)
Definition state : Type := list LogReceipt.

(** Modelled from the spec: the subscription appends a newly emitted swap
    log to what has accumulated (insertion order as delivered). *)
Definition deliver (e : LogReceipt) (buf : state) : state := buf ++ [e].

(** Modelled from the spec: [pollNew], realised as [get_new_entries],
    "drains whatever has accumulated server-side since the last drain". *)
Definition pollNew (buf : state) : list LogReceipt * state := (buf, []).

(** What happens to one filter instance: a log arrives, or it is polled. *)
Inductive action : Type :=
| Deliver (e : LogReceipt)
| Poll.

(** The batches returned by the polls of a run, in call order, and the
    state the run ends in. *)
Fixpoint run (acts : list action) (buf : state) : list (list LogReceipt) * state :=
  match acts with
  | [] => ([], buf)
  | Deliver e :: acts' => run acts' (deliver e buf)
  | Poll :: acts' =>
      let '(batch, buf') := pollNew buf in
      let '(batches, final) := run acts' buf' in
      (batch :: batches, final)
  end.

(** The logs a run delivers, in arrival order. *)
Fixpoint delivered (acts : list action) : list LogReceipt :=
  match acts with
  | [] => []
  | Deliver e :: acts' => e :: delivered acts'
  | Poll :: acts' => delivered acts'
  end.

End PushFilter.

(** ** A concrete pool *)

Module Example.

(** [str(datetime.datetime.fromtimestamp(t))] of CPython on a 64-bit
    Linux machine whose local zone is UTC: days since the epoch to a civil
    date, then [YYYY-MM-DD HH:MM:SS].  A timestamp that does not fit the
    64-bit [time_t] raises [OverflowError]; one whose year does not fit
    the [int] of [localtime] raises [OSError]; one whose year, or the year
    of the day before (which [fromtimestamp] probes), is outside 1..9999
    raises [ValueError]. *)
Definition digit (n : Z) : ascii := hex_digit (Z.to_N n).

Definition pad2 (n : Z) (rest : string) : string :=
  String (digit (n / 10)) (String (digit (n mod 10)) rest).

Definition pad4 (n : Z) (rest : string) : string :=
  pad2 (n / 100) (pad2 (n mod 100) rest).

Definition utc_civil_time (t : Z) : result string :=
  let days := t / 86400 in
  let secs := t mod 86400 in
  let z := days + 719468 in
  let era := z / 146097 in
  let doe := z - era * 146097 in
  let yoe := (doe - doe / 1460 + doe / 36524 - doe / 146096) / 365 in
  let doy := doe - (365 * yoe + yoe / 4 - yoe / 100) in
  let mp := (5 * doy + 2) / 153 in
  let d := doy - (153 * mp + 2) / 5 + 1 in
  let m := if mp <? 10 then mp + 3 else mp - 9 in
  let y := yoe + era * 400 + (if m <=? 2 then 1 else 0) in
  if (t <? - 2 ^ 63) || (2 ^ 63 <=? t) then Raise OverflowError
  else if (t <? -67768040609740800) || (67768036191676799 <? t) then Raise OSError
  else if (t <? -62135510400) || (9999 <? y) then Raise ValueError
  else
    Ok (pad4 y (String "-" (pad2 m (String "-" (pad2 d (String " "
         (pad2 (secs / 3600) (String ":"
           (pad2 (secs mod 3600 / 60) (String ":"
             (pad2 (secs mod 60) EmptyString)))))))))))%char.

(** A node whose chain head is block 18570000, twelve seconds a block. *)
Definition node_get_block (n : Z) : result Block :=
  if (0 <=? n) && (n <=? 18570000) then
    Ok {| timestamp := 1700000000 - 12 * (18570000 - n) |}
  else Raise BlockNotFound.

(** A pool of an 18-decimals token against a 6-decimals token. *)
Definition repository : Repository PushFilter.state := {|
  _token0_decimals := 18;
  _token1_decimals := 6;
  _token0_symbol := "WETH";
  _token1_symbol := "USDC";
  _contract_address := "0x88e6A0c2dDD26FEEb64F039a2c41296FcB3f5640";
  get_block := node_get_block;
  get_new_entries := PushFilter.pollNew
|}.

Definition service : iService PushFilter.state :=
  {| _repository := repository |}.

(** The swap of the specification's examples: [1e18] raw units of token0
    against [-2.5e6] raw units of token1. *)
Definition swap : LogReceipt := {|
  args := {| recipient := "0xE592427A0AEce92De3Edee1F18E0157C05861564";
             amount0 := 1000000000000000000;
             amount1 := -2500000 |};
  transactionHash := [Byte.xab; Byte.x01; Byte.xfe];
  blockNumber := 18570000
|}.

(** A second swap of the same pool, in a later transaction. *)
Definition swap' : LogReceipt := {|
  args := {| recipient := "0xE592427A0AEce92De3Edee1F18E0157C05861564";
             amount0 := -1;
             amount1 := 3 |};
  transactionHash := [Byte.x0c; Byte.x11];
  blockNumber := 18569999
|}.

(** A swap log that names a block the node does not have. *)
Definition orphan : LogReceipt := {|
  args := {| recipient := "0xE592427A0AEce92De3Edee1F18E0157C05861564";
             amount0 := 5;
             amount1 := -7 |};
  transactionHash := [Byte.x77];
  blockNumber := 18570001
|}.

(** A token of one decimal, for which one raw unit is a tenth. *)
Definition dime_repository : Repository PushFilter.state := {|
  _token0_decimals := 1;
  _token1_decimals := 1;
  _token0_symbol := "DIME";
  _token1_symbol := "DIME";
  _contract_address := "0x0000000000000000000000000000000000000001";
  get_block := node_get_block;
  get_new_entries := PushFilter.pollNew
|}.

Definition dime_service : iService PushFilter.state :=
  {| _repository := dime_repository |}.

Definition dime_swap : LogReceipt := {|
  args := {| recipient := "0xE592427A0AEce92De3Edee1F18E0157C05861564";
             amount0 := 1;
             amount1 := -1 |};
  transactionHash := [Byte.x01];
  blockNumber := 18570000
|}.

(** The float nearest to [-2.5e-12]. *)
Definition minus_2_5e_12 : float := S754_finite true 6189700196426901 (-91).

End Example.

(** ** Swaps related to a given swap *)

(** The swap whose raw legs have changed places. *)
Definition exchange_legs (swap : LogReceipt) : LogReceipt := {|
  args := {| recipient := recipient (args swap);
             amount0 := amount1 (args swap);
             amount1 := amount0 (args swap) |};
  transactionHash := transactionHash swap;
  blockNumber := blockNumber swap
|}.

(** The swap in the opposite direction: both raw legs negated. *)
Definition mirror_legs (swap : LogReceipt) : LogReceipt := {|
  args := {| recipient := recipient (args swap);
             amount0 := - amount0 (args swap);
             amount1 := - amount1 (args swap) |};
  transactionHash := transactionHash swap;
  blockNumber := blockNumber swap
|}.

(** Unary minus on the float a computation returns. *)
Definition negated (r : result float) : result float :=
  f <- r ;; Ok (SFopp f).

Module Edge.

(** Three whole token0 against seven whole token1 of the example pool. *)
Definition whole_swap : LogReceipt := {|
  args := {| recipient := "0xE592427A0AEce92De3Edee1F18E0157C05861564";
             amount0 := 3000000000000000000;
             amount1 := -7000000 |};
  transactionHash := [Byte.x5a; Byte.x00];
  blockNumber := 18569990
|}.

(** A log whose first leg is too large for any float once divided. *)
Definition huge_swap : LogReceipt := {|
  args := {| recipient := "0xE592427A0AEce92De3Edee1F18E0157C05861564";
             amount0 := 2 ^ 1100;
             amount1 := -1 |};
  transactionHash := [Byte.xee];
  blockNumber := 18570002
|}.

(** A swap with larger legs than the example swap. *)
Definition bigger_swap : LogReceipt := {|
  args := {| recipient := "0xE592427A0AEce92De3Edee1F18E0157C05861564";
             amount0 := 2000000000000000000;
             amount1 := -1000000 |};
  transactionHash := [Byte.x42];
  blockNumber := 18569998
|}.

(** The floats [2.0] and [-1.0]. *)
Definition two : float := S754_finite false 4503599627370496 (-51).
Definition minus_one : float := S754_finite true 4503599627370496 (-52).

End Edge.

(** The rational [m * 2^e]. *)
Definition dyadic (m e : Z) : Q :=
  m * 2 ^ Z.max 0 e # Z.to_pos (2 ^ Z.max 0 (- e)).

(** A float that is a number: a zero or a finite non-zero float. *)
Definition is_finite (f : float) : bool :=
  match f with
  | S754_zero _ | S754_finite _ _ _ => true
  | _ => false
  end.

(** [f] is a binary64 float nearest to the rational [x]: no binary64
    float is nearer. *)
Definition nearest_float (x : Q) (f : float) : Prop :=
  valid_binary 53 1024 f = true /\
  is_finite f = true /\
  forall g : float,
    valid_binary 53 1024 g = true -> is_finite g = true ->
    (Qabs (to_Q f - x) <= Qabs (to_Q g - x))%Q.

Module PollingFilter.

(** Modelled from the spec: the state of the polling variant of
    EventSource, the pool's swap logs as the chain has them so far and
    "the last processed block/log cursor", kept as the number of logs
    already returned; the repository's [_blocks] filter is not part of the
    service module. *)
Record state : Type := {
  logs : list LogReceipt;
  cursor : nat
}.


(** Modelled from the spec: the chain appends a newly emitted swap log. *)
Definition deliver (e : LogReceipt) (s : state) : state :=
  {| logs := logs s ++ [e]; cursor := cursor s |}.

(** The logs past the cursor. *)
Definition pending (s : state) : list LogReceipt := skipn (cursor s) (logs s).

(** Modelled from the spec: [pollNew] "issues the query and returns the
    batch", and moves the cursor so that "repeated calls advance strictly
    forward". *)
Definition pollNew (s : state) : list LogReceipt * state :=
  (pending s, {| logs := logs s; cursor := List.length (logs s) |}).

Fixpoint run (acts : list PushFilter.action) (s : state)
  : list (list LogReceipt) * state :=
  match acts with
  | [] => ([], s)
  | PushFilter.Deliver e :: acts' => run acts' (deliver e s)
  | PushFilter.Poll :: acts' =>
      let '(batch, s') := pollNew s in
      let '(batches, final) := run acts' s' in
      (batch :: batches, final)
  end.

End PollingFilter.

Module Router.



End Router.

(** Case analysis on a disjunction of outcomes of [result] computations. *)
Ltac break_cases H :=
  repeat match goal with
         | H' : _ \/ _ |- _ => destruct H'
         | H' : _ /\ _ |- _ => destruct H'
         | H' : exists _, _ |- _ => destruct H'
         | H' : Raise _ = Ok _ |- _ => discriminate H'
         | H' : Ok _ = Raise _ |- _ => discriminate H'
         | H' : Raise _ = Raise _ |- _ => injection H' as H'; subst
         | H' : Ok _ = Ok _ |- _ => injection H' as H'; subst
         end;
  first [ reflexivity
        | match goal with
          | H1 : ?x = Ok _, H2 : ?x = Raise _ |- _ =>
              rewrite H1 in H2; discriminate H2
          | H1 : ?x = Raise _, H2 : ?x = Raise _ |- _ =>
              rewrite H1 in H2; injection H2 as ->; reflexivity
          end ].

(** * Facts about [int / int] *)

Section FloatFacts.

Lemma num_at_high (n e : Z) : 0 <= e -> num_at n e = n.
Proof.
  intros He. unfold num_at. rewrite Z.max_l by lia. simpl. lia.
Qed.

Lemma den_at_high (d e : Z) : 0 <= e -> den_at d e = d * 2 ^ e.
Proof.
  intros He. unfold den_at. now rewrite Z.max_r by lia.
Qed.

Lemma num_at_low (n e : Z) : e <= 0 -> num_at n e = n * 2 ^ (- e).
Proof.
  intros He. unfold num_at. now rewrite Z.max_r by lia.
Qed.

Lemma den_at_low (d e : Z) : e <= 0 -> den_at d e = d.
Proof.
  intros He. unfold den_at. rewrite Z.max_l by lia. simpl. lia.
Qed.

Lemma den_at_pos (d e : Z) : 0 < d -> 0 < den_at d e.
Proof.
  intros Hd. unfold den_at.
  assert (0 < 2 ^ Z.max 0 e) by (apply Z.pow_pos_nonneg; lia). nia.
Qed.

Lemma num_at_pos (n e : Z) : 0 < n -> 0 < num_at n e.
Proof.
  intros Hd. unfold num_at.
  assert (0 < 2 ^ Z.max 0 (- e)) by (apply Z.pow_pos_nonneg; lia). nia.
Qed.

(** Lowering the exponent by [j] multiplies the fraction by [2^j]. *)
Lemma fraction_shift (n d k j : Z) :
  0 <= j ->
  num_at n (k - j) * den_at d k = 2 ^ j * (num_at n k * den_at d (k - j)).
Proof.
  intros Hj.
  destruct (Z.le_gt_cases k 0) as [Hk | Hk].
  - rewrite !num_at_low, !den_at_low by lia.
    replace (- (k - j)) with (- k + j) by lia.
    rewrite Z.pow_add_r by lia. ring.
  - destruct (Z.le_gt_cases 0 (k - j)) as [Hkj | Hkj].
    + rewrite !num_at_high, !den_at_high by lia.
      replace k with ((k - j) + j) at 1 by lia.
      rewrite Z.pow_add_r by lia. ring.
    + rewrite (num_at_low n (k - j)), (den_at_low d (k - j)) by lia.
      rewrite num_at_high, den_at_high by lia.
      replace j with (- (k - j) + k) at 2 by lia.
      rewrite Z.pow_add_r by lia. ring.
Qed.

Lemma rne_div_error (n d : Z) :
  0 <= n -> 0 < d -> 2 * Z.abs (rne_div n d * d - n) <= d.
Proof.
  intros Hn Hd. unfold rne_div.
  pose proof (Z.div_mod n d ltac:(lia)) as Hdm.
  pose proof (Z.mod_pos_bound n d Hd) as Hr.
  destruct (Z.ltb_spec (2 * (n mod d)) d);
    [| destruct (Z.ltb_spec d (2 * (n mod d))); [| destruct (Z.even (n / d))]];
    nia.
Qed.

Lemma rne_div_lower (n d c : Z) :
  0 < d -> c * d <= n -> c <= rne_div n d.
Proof.
  intros Hd Hc.
  assert (c <= n / d) by (apply Z.div_le_lower_bound; lia).
  unfold rne_div.
  destruct (_ <? _); [| destruct (_ <? _); [| destruct (Z.even _)]]; lia.
Qed.

Lemma rne_div_upper (n d c : Z) :
  0 < d -> n < c * d -> rne_div n d <= c.
Proof.
  intros Hd Hc.
  assert (n / d < c) by (apply Z.div_lt_upper_bound; lia).
  unfold rne_div.
  destruct (_ <? _); [| destruct (_ <? _); [| destruct (Z.even _)]]; lia.
Qed.

(** No integer is nearer to [n / d] than [rne_div n d], and a tie is
    resolved to the even neighbour. *)
Lemma rne_div_nearest (n d k : Z) :
  0 <= n -> 0 < d ->
  Z.abs (rne_div n d * d - n) <= Z.abs (k * d - n).
Proof.
  intros Hn Hd.
  pose proof (rne_div_error n d Hn Hd) as He.
  destruct (Z.eq_dec k (rne_div n d)) as [-> | Hk]; [lia |].
  assert (Hfar : k <= rne_div n d - 1 \/ rne_div n d + 1 <= k) by lia.
  destruct Hfar; nia.
Qed.

Lemma rne_div_tie_even (n d : Z) :
  2 * (n mod d) = d -> Z.even (rne_div n d) = true.
Proof.
  intros Ht. unfold rne_div.
  rewrite Ht, Z.ltb_irrefl.
  destruct (Z.even (n / d)) eqn:E; [assumption |].
  rewrite Z.even_add, E. reflexivity.
Qed.

Lemma quot_log2_spec (n d : Z) :
  0 < n -> 0 < d ->
  den_at d (quot_log2 n d) <= num_at n (quot_log2 n d) < 2 * den_at d (quot_log2 n d).
Proof.
  intros Hn Hd.
  destruct (Z.log2_spec n Hn) as [Hn1 Hn2].
  destruct (Z.log2_spec d Hd) as [Hd1 Hd2].
  pose proof (Z.log2_nonneg n) as Ha. pose proof (Z.log2_nonneg d) as Hb.
  rewrite Z.pow_succ_r in Hn2, Hd2 by assumption.
  unfold quot_log2.
  set (a := Z.log2 n) in *. set (b := Z.log2 d) in *.
  assert (Hp : 0 < 2 ^ a /\ 0 < 2 ^ b) by (split; apply Z.pow_pos_nonneg; lia).
  destruct (Z.leb_spec (den_at d (a - b)) (num_at n (a - b))) as [Hc | Hc].
  - split; [assumption |].
    destruct (Z.le_gt_cases 0 (a - b)).
    + rewrite num_at_high, den_at_high in * by lia.
      assert (2 ^ a = 2 ^ b * 2 ^ (a - b)) by (rewrite <- Z.pow_add_r by lia; f_equal; lia).
      nia.
    + rewrite num_at_low, den_at_low in * by lia.
      assert (2 ^ b = 2 ^ a * 2 ^ (- (a - b))) by (rewrite <- Z.pow_add_r by lia; f_equal; lia).
      nia.
  - destruct (Z.le_gt_cases 1 (a - b)).
    + rewrite num_at_high, den_at_high in * by lia.
      assert (2 ^ a = 2 ^ b * 2 ^ (a - b)) by (rewrite <- Z.pow_add_r by lia; f_equal; lia).
      assert (2 ^ (a - b) = 2 * 2 ^ (a - b - 1))
        by (rewrite <- Z.pow_succ_r by lia; f_equal; lia).
      assert (0 < 2 ^ (a - b - 1)) by (apply Z.pow_pos_nonneg; lia).
      nia.
    + rewrite num_at_low, den_at_low in * by lia.
      assert (2 ^ b = 2 ^ a * 2 ^ (- (a - b))) by (rewrite <- Z.pow_add_r by lia; f_equal; lia).
      assert (2 ^ (- (a - b - 1)) = 2 * 2 ^ (- (a - b)))
        by (rewrite <- Z.pow_succ_r by lia; f_equal; lia).
      assert (0 < 2 ^ (- (a - b))) by (apply Z.pow_pos_nonneg; lia).
      nia.
Qed.

Lemma mantissa_range (n d : Z) :
  0 < n -> 0 < d ->
  let e := quot_log2 n d - (prec - 1) in
  2 ^ (prec - 1) * den_at d e <= num_at n e < 2 ^ prec * den_at d e.
Proof.
  intros Hn Hd e.
  pose proof (quot_log2_spec n d Hn Hd) as [Hlo Hhi].
  pose proof (fraction_shift n d (quot_log2 n d) (prec - 1) ltac:(unfold prec; lia)) as Hs.
  fold e in Hs.
  pose proof (den_at_pos d (quot_log2 n d) Hd) as Hk.
  pose proof (den_at_pos d e Hd) as He.
  pose proof (num_at_pos n e Hn) as Hne.
  change (2 ^ prec) with (2 * 2 ^ (prec - 1)).
  change (2 ^ (prec - 1)) with 4503599627370496 in *.
  split.
  - apply (Z.mul_le_mono_pos_r _ _ (den_at d (quot_log2 n d))); [assumption |].
    rewrite Hs. nia.
  - apply (Z.mul_lt_mono_pos_r (den_at d (quot_log2 n d))); [assumption |].
    rewrite Hs. nia.
Qed.

Lemma int_truediv_normal (a b : Z) :
  a <> 0 -> 0 < b ->
  emin <= quot_log2 (Z.abs a) b - (prec - 1) < emax_mant ->
  exists p e,
    int_truediv a b = Ok (S754_finite (a <? 0) p e) /\
    2 ^ prec * Z.abs (Zpos p * den_at b e - num_at (Z.abs a) e) <= num_at (Z.abs a) e /\
    2 ^ (prec - 1) <= Zpos p < 2 ^ prec /\
    emin <= e <= emax_mant.
Proof.
  intros Ha Hb He.
  unfold int_truediv.
  destruct (Z.eqb_spec b 0) as [| _]; [lia |].
  destruct (Z.eqb_spec (Z.abs a) 0) as [| _]; [lia |].
  replace (b <? 0) with false by (symmetry; apply Z.ltb_ge; lia).
  rewrite xorb_false_r, (Z.abs_eq b) by lia.
  set (n := Z.abs a) in *.
  assert (Hn : 0 < n) by (subst n; lia).
  rewrite Z.max_l by lia.
  set (e := quot_log2 n b - (prec - 1)) in *.
  pose proof (mantissa_range n b Hn Hb) as [Hlo Hhi]. fold e in Hlo, Hhi.
  pose proof (den_at_pos b e Hb) as Hden.
  pose proof (rne_div_error (num_at n e) (den_at b e)
                ltac:(pose proof (num_at_pos n e Hn); lia) Hden) as Herr.
  pose proof (rne_div_lower (num_at n e) (den_at b e) _ Hden Hlo) as Hml.
  pose proof (rne_div_upper (num_at n e) (den_at b e) _ Hden Hhi) as Hmu.
  set (m := rne_div (num_at n e) (den_at b e)) in *.
  change (2 ^ prec) with 9007199254740992 in *.
  change (2 ^ (prec - 1)) with 4503599627370496 in *.
  destruct (Z.eqb_spec m 9007199254740992) as [Hm | Hm].
  - replace (emax_mant <? e + 1) with false by (symmetry; apply Z.ltb_ge; lia).
    exists 4503599627370496%positive, (e + 1).
    split; [reflexivity |]. split; [| lia].
    pose proof (fraction_shift n b (e + 1) 1 ltac:(lia)) as Hs.
    replace (e + 1 - 1) with e in Hs by lia. change (2 ^ 1) with 2 in Hs.
    pose proof (den_at_pos b (e + 1) Hb) as Hden'.
    pose proof (num_at_pos n (e + 1) Hn) as Hnum'.
    destruct (Z.le_gt_cases 0 e).
    + rewrite num_at_high, den_at_high in * by lia.
      rewrite Z.pow_add_r in * by lia. change (2 ^ 1) with 2 in *. nia.
    + rewrite num_at_low, den_at_low in * by lia.
      replace (- e) with (- (e + 1) + 1) in * by lia.
      rewrite Z.pow_add_r in * by lia. change (2 ^ 1) with 2 in *. nia.
  - replace (emax_mant <? e) with false by (symmetry; apply Z.ltb_ge; lia).
    destruct m as [| p | p] eqn:Em; try lia.
    exists p, e. split; [reflexivity |]. split; [nia | lia].
Qed.

Lemma quot_log2_bounds (n d : Z) :
  Z.log2 n - Z.log2 d - 1 <= quot_log2 n d <= Z.log2 n - Z.log2 d.
Proof.
  unfold quot_log2. destruct (_ <=? _); lia.
Qed.

Lemma to_Q_finite (s : bool) (p : positive) (e : Z) :
  to_Q (S754_finite s p e)
  = ((if s then Zneg p else Zpos p) * 2 ^ Z.max 0 e # Z.to_pos (2 ^ Z.max 0 (- e))).
Proof.
  destruct e as [| k | k]; cbn [to_Q].
  - simpl. now rewrite Z.mul_1_r.
  - rewrite Z.max_r, Z.max_l by lia. now rewrite Pos2Z.inj_pow.
  - rewrite Z.max_l, Z.max_r by lia. rewrite Z.mul_1_r.
    f_equal. change (- Z.neg k) with (Z.pos k).
    rewrite <- Pos2Z.inj_pow. reflexivity.
Qed.

Lemma relative_error_Q (x D : Z) (p : positive) (e : Z) :
  x <> 0 -> 0 < D ->
  2 ^ prec * Z.abs (Zpos p * den_at D e - num_at (Z.abs x) e) <= num_at (Z.abs x) e ->
  (Qabs (to_Q (S754_finite (x <? 0) p e) - (x # Z.to_pos D))
   <= Qabs (x # Z.to_pos D) * (1 # 2 ^ 53))%Q.
Proof.
  intros Hx HD H.
  rewrite to_Q_finite.
  unfold num_at, den_at in H.
  assert (Hu : 0 < 2 ^ Z.max 0 e) by (apply Z.pow_pos_nonneg; lia).
  assert (Hv : 0 < 2 ^ Z.max 0 (- e)) by (apply Z.pow_pos_nonneg; lia).
  assert (Huv : 2 ^ Z.max 0 e = 1 \/ 2 ^ Z.max 0 (- e) = 1).
  { destruct (Z.le_gt_cases 0 e); [right; rewrite Z.max_l by lia | left; rewrite Z.max_l by lia];
      reflexivity. }
  unfold Qle, Qabs, Qminus, Qplus, Qopp, Qmult. cbn [Qnum Qden].
  rewrite !Pos2Z.inj_mul, !Z2Pos.id by assumption.
  change (Z.pos (2 ^ 53)) with 9007199254740992.
  change (2 ^ prec) with 9007199254740992 in H.
  set (u := 2 ^ Z.max 0 e) in *. set (v := 2 ^ Z.max 0 (- e)) in *.
  destruct (Z.ltb_spec x 0) as [Hneg | Hpos].
  - rewrite (Z.abs_neq x) in * by lia.
    replace (Z.neg p * u * D + - x * v) with (- (Z.pos p * (D * u) - - x * v))
      by (change (Z.neg p) with (- Z.pos p); ring).
    rewrite Z.abs_opp.
    destruct Huv as [E | E]; rewrite E in *; nia.
  - rewrite (Z.abs_eq x) in * by lia.
    replace (Z.pos p * u * D + - x * v) with (Z.pos p * (D * u) - x * v) by ring.
    destruct Huv as [E | E]; rewrite E in *; nia.
Qed.

Lemma digits2_pos_log2 (p : positive) :
  Zpos (digits2_pos p) = Z.log2 (Zpos p) + 1.
Proof.
  assert (Hs : forall q, digits2_pos q = Pos.size q)
    by (induction q as [q IH | q IH |]; simpl; congruence).
  destruct p; simpl; rewrite ?Hs; lia.
Qed.

(** A 53-bit mantissa with an exponent in range is a binary64 float. *)
Lemma normal_is_valid_binary (s : bool) (p : positive) (e : Z) :
  2 ^ (prec - 1) <= Zpos p < 2 ^ prec ->
  emin <= e <= emax_mant ->
  valid_binary 53 1024 (S754_finite s p e) = true.
Proof.
  intros Hp He. unfold prec, emin, emax_mant in *.
  assert (Hl : Z.log2 (Zpos p) = 52) by (apply Z.log2_unique; lia).
  unfold valid_binary, bounded, canonical_mantissa, fexp, SpecFloat.emin.
  rewrite digits2_pos_log2, Hl.
  apply andb_true_intro. split; [apply Z.eqb_eq | apply Z.leb_le]; lia.
Qed.

(** Whenever the quotient is no smaller than the least normal float, a
    non-zero dividend gives a non-zero float of the dividend's sign. *)
Lemma int_truediv_sgn (a b : Z) (f : float) :
  0 < b ->
  (a <> 0 -> emin <= quot_log2 (Z.abs a) b - (prec - 1)) ->
  int_truediv a b = Ok f ->
  sgn f = Z.sgn a.
Proof.
  intros Hb He.
  unfold int_truediv.
  destruct (Z.eqb_spec b 0) as [| _]; [lia |].
  replace (b <? 0) with false by (symmetry; apply Z.ltb_ge; lia).
  rewrite xorb_false_r, (Z.abs_eq b) by lia.
  destruct (Z.eqb_spec (Z.abs a) 0) as [Ha | Ha].
  - intros [= <-]. replace a with 0 by lia. reflexivity.
  - specialize (He ltac:(lia)).
    set (n := Z.abs a) in *.
    assert (Hn : 0 < n) by (subst n; lia).
    rewrite Z.max_l by lia.
    set (e := quot_log2 n b - (prec - 1)) in *.
    pose proof (mantissa_range n b Hn Hb) as [Hlo _]. fold e in Hlo.
    pose proof (rne_div_lower (num_at n e) (den_at b e) _ (den_at_pos b e Hb) Hlo) as Hml.
    set (m := rne_div (num_at n e) (den_at b e)) in *.
    change (2 ^ (prec - 1)) with 4503599627370496 in *.
    assert (Hs : forall p e', sgn (S754_finite (a <? 0) p e') = Z.sgn a).
    { intros p e'. destruct (Z.ltb_spec a 0); simpl; lia. }
    destruct (m =? 2 ^ prec); cbv beta iota.
    + destruct (emax_mant <? _); [discriminate |]. intros [= <-]. apply Hs.
    + destruct (emax_mant <? _); [discriminate |].
      destruct m as [| p | p]; try lia. intros [= <-]. apply Hs.
Qed.

Lemma int_truediv_zero (b : Z) :
  0 < b -> int_truediv 0 b = Ok (S754_zero false).
Proof.
  intros Hb. unfold int_truediv.
  destruct (Z.eqb_spec b 0) as [| _]; [lia |].
  replace (b <? 0) with false by (symmetry; apply Z.ltb_ge; lia).
  reflexivity.
Qed.

(** Raw legs of at most 257 bits and [uint8] decimals keep the quotient
    between the least normal float and the overflow threshold. *)
Lemma scale_exponent_range (x : Z) (d : N) :
  x <> 0 -> Z.abs x <= 2 ^ 256 -> (d <= 255)%N ->
  emin <= quot_log2 (Z.abs x) (10 ^ Z.of_N d) - (prec - 1) < emax_mant.
Proof.
  intros Hx Hb Hd.
  pose proof (quot_log2_bounds (Z.abs x) (10 ^ Z.of_N d)) as Hq.
  assert (H1 : Z.log2 (Z.abs x) <= 256).
  { rewrite <- (Z.log2_pow2 256) by lia. apply Z.log2_le_mono. assumption. }
  assert (H2 : Z.log2 (10 ^ Z.of_N d) <= 847).
  { transitivity (Z.log2 (10 ^ 255)); [| vm_compute; discriminate].
    apply Z.log2_le_mono, Z.pow_le_mono_r; lia. }
  pose proof (Z.log2_nonneg (Z.abs x)). pose proof (Z.log2_nonneg (10 ^ Z.of_N d)).
  unfold emin, emax_mant, prec. lia.
Qed.

(** With [uint8] decimals a non-zero leg never underflows. *)
Lemma scale_exponent_floor (x : Z) (d : N) :
  x <> 0 -> (d <= 255)%N ->
  emin <= quot_log2 (Z.abs x) (10 ^ Z.of_N d) - (prec - 1).
Proof.
  intros Hx Hd.
  pose proof (quot_log2_bounds (Z.abs x) (10 ^ Z.of_N d)) as Hq.
  assert (H2 : Z.log2 (10 ^ Z.of_N d) <= 847).
  { transitivity (Z.log2 (10 ^ 255)); [| vm_compute; discriminate].
    apply Z.log2_le_mono, Z.pow_le_mono_r; lia. }
  pose proof (Z.log2_nonneg (Z.abs x)).
  unfold emin, prec. lia.
Qed.

Lemma pow10_pos (d : N) : 0 < 10 ^ Z.of_N d.
Proof. apply Z.pow_pos_nonneg; lia. Qed.

(** Decimal scaling of a bounded leg: the division returns a binary64
    float within relative error [2^-53] of the exact quotient. *)
Lemma scale_accuracy (x : Z) (d : N) :
  Z.abs x <= 2 ^ 256 -> (d <= 255)%N ->
  exists f,
    scale x d = Ok f /\
    valid_binary 53 1024 f = true /\
    (Qabs (to_Q f - exact_scale x d) <= Qabs (exact_scale x d) * (1 # 2 ^ 53))%Q.
Proof.
  intros Hb Hd. unfold scale, exact_scale.
  destruct (Z.eq_dec x 0) as [-> | Hx].
  - exists (S754_zero false). split; [| split].
    + apply int_truediv_zero, pow10_pos.
    + reflexivity.
    + unfold Qle. simpl. lia.
  - destruct (int_truediv_normal x (10 ^ Z.of_N d) Hx (pow10_pos d)
                (scale_exponent_range x d Hx Hb Hd)) as (p & e & Hf & Herr & Hp & He).
    exists (S754_finite (x <? 0) p e). split; [exact Hf |]. split.
    + now apply normal_is_valid_binary.
    + apply relative_error_Q; [assumption | apply pow10_pos | assumption].
Qed.

End FloatFacts.

(** * The amounts *)

Section Amounts.

Context {F : Type}.
Implicit Types (self : iService F) (swap : LogReceipt).

Lemma _amount0_scale self is_reverse swap :
  _amount0 self is_reverse swap
  = scale (leg0 is_reverse swap) (_token0_decimals (_repository self)).
Proof. destruct is_reverse; reflexivity. Qed.

Lemma _amount1_scale self is_reverse swap :
  _amount1 self is_reverse swap
  = scale (leg1 is_reverse swap) (_token1_decimals (_repository self)).
Proof. destruct is_reverse; reflexivity. Qed.

(** Without the reverse flag [_amount0] divides [amount0] and
    [_amount1] divides [amount1]; with it the two raw legs change places.
    The power of ten is that of the output slot in all four cases. *)
Lemma amounts_scale_the_selected_leg self swap :
  _amount0 self false swap
    = scale (amount0 (args swap)) (_token0_decimals (_repository self)) /\
  _amount0 self true swap
    = scale (amount1 (args swap)) (_token0_decimals (_repository self)) /\
  _amount1 self false swap
    = scale (amount1 (args swap)) (_token1_decimals (_repository self)) /\
  _amount1 self true swap
    = scale (amount0 (args swap)) (_token1_decimals (_repository self)).
Proof.
  repeat split.
Qed.

(** C2, amended. When both tokens have the same number of decimals, the
    pair of amounts computed with the reverse flag is, as an unordered
    pair, the pair computed without it. *)
Theorem reverse_keeps_the_pair_for_equal_decimals self swap :
  _token0_decimals (_repository self) = _token1_decimals (_repository self) ->
  same_pair (_amount0 self false swap, _amount1 self false swap)
            (_amount1 self true swap, _amount0 self true swap).
Proof.
  intros Hd. left.
  rewrite !_amount0_scale, !_amount1_scale, Hd. reflexivity.
Qed.

(** C3, amended. For raw legs of magnitude up to [2^256] and decimals up
    to 255, both divisions return a binary64 float, and that float is
    within a relative error of [2^-53] of the exact rational
    [raw / 10^decimals]. *)
Theorem amounts_are_within_half_an_ulp self is_reverse swap :
  Z.abs (amount0 (args swap)) <= 2 ^ 256 ->
  Z.abs (amount1 (args swap)) <= 2 ^ 256 ->
  (_token0_decimals (_repository self) <= 255)%N ->
  (_token1_decimals (_repository self) <= 255)%N ->
  exists f0 f1,
    _amount0 self is_reverse swap = Ok f0 /\
    _amount1 self is_reverse swap = Ok f1 /\
    valid_binary 53 1024 f0 = true /\
    valid_binary 53 1024 f1 = true /\
    (Qabs (to_Q f0 - exact_scale (leg0 is_reverse swap) (_token0_decimals (_repository self)))
     <= Qabs (exact_scale (leg0 is_reverse swap) (_token0_decimals (_repository self)))
        * (1 # 2 ^ 53))%Q /\
    (Qabs (to_Q f1 - exact_scale (leg1 is_reverse swap) (_token1_decimals (_repository self)))
     <= Qabs (exact_scale (leg1 is_reverse swap) (_token1_decimals (_repository self)))
        * (1 # 2 ^ 53))%Q.
Proof.
  intros H0 H1 Hd0 Hd1.
  assert (Hl0 : Z.abs (leg0 is_reverse swap) <= 2 ^ 256)
    by (destruct is_reverse; assumption).
  assert (Hl1 : Z.abs (leg1 is_reverse swap) <= 2 ^ 256)
    by (destruct is_reverse; assumption).
  destruct (scale_accuracy _ _ Hl0 Hd0) as (f0 & E0 & V0 & A0).
  destruct (scale_accuracy _ _ Hl1 Hd1) as (f1 & E1 & V1 & A1).
  exists f0, f1. rewrite _amount0_scale, _amount1_scale. repeat split; assumption.
Qed.

(** C4. With 18 and 6 decimals, the raw legs [10^18] and [-2500000] give
    without the reverse flag the floats [1.0] and [-2.5]. *)
Theorem example_forward_amounts self swap :
  _token0_decimals (_repository self) = 18%N ->
  _token1_decimals (_repository self) = 6%N ->
  amount0 (args swap) = 1000000000000000000 ->
  amount1 (args swap) = -2500000 ->
  _amount0 self false swap = Ok one /\
  _amount1 self false swap = Ok minus_two_and_a_half /\
  (to_Q one == 1)%Q /\
  (to_Q minus_two_and_a_half == - (5 # 2))%Q.
Proof.
  intros Hd0 Hd1 Ha0 Ha1.
  rewrite _amount0_scale, _amount1_scale.
  unfold leg0, leg1. rewrite Hd0, Hd1, Ha0, Ha1.
  repeat split; vm_compute; reflexivity.
Qed.

(** C5, amended. For the same pool and swap the reverse flag gives
    amount0 = the float nearest to [-2500000 / 10^18] = [-2.5e-12] (which
    is not [-2.5]) and amount1 = [10^18 / 10^6] = [1000000000000.0]. *)
Theorem example_reverse_amounts self swap :
  _token0_decimals (_repository self) = 18%N ->
  _token1_decimals (_repository self) = 6%N ->
  amount0 (args swap) = 1000000000000000000 ->
  amount1 (args swap) = -2500000 ->
  _amount0 self true swap = Ok Example.minus_2_5e_12 /\
  _amount1 self true swap = Ok ten_to_the_12 /\
  (Qabs (to_Q Example.minus_2_5e_12 - (-25 # 10 ^ 13))
   <= (25 # 10 ^ 13) * (1 # 2 ^ 53))%Q /\
  (to_Q ten_to_the_12 == 1000000000000 # 1)%Q.
Proof.
  intros Hd0 Hd1 Ha0 Ha1.
  rewrite _amount0_scale, _amount1_scale.
  unfold leg0, leg1. rewrite Hd0, Hd1, Ha0, Ha1.
  repeat split; vm_compute; try reflexivity; discriminate.
Qed.

(** C10. With [uint8] decimals every amount that is computed has the sign
    of the raw leg it was divided from: negative, zero or positive; and
    for legs of magnitude up to [2^256] both amounts are computed. *)
Theorem amounts_keep_the_sign_of_their_leg self is_reverse swap :
  (_token0_decimals (_repository self) <= 255)%N ->
  (_token1_decimals (_repository self) <= 255)%N ->
  (forall f, _amount0 self is_reverse swap = Ok f ->
             sgn f = Z.sgn (leg0 is_reverse swap)) /\
  (forall f, _amount1 self is_reverse swap = Ok f ->
             sgn f = Z.sgn (leg1 is_reverse swap)) /\
  (Z.abs (amount0 (args swap)) <= 2 ^ 256 ->
   Z.abs (amount1 (args swap)) <= 2 ^ 256 ->
   exists f0 f1,
     _amount0 self is_reverse swap = Ok f0 /\
     _amount1 self is_reverse swap = Ok f1).
Proof.
  intros Hd0 Hd1.
  rewrite _amount0_scale, _amount1_scale.
  split; [| split].
  - intros f. apply int_truediv_sgn; [apply pow10_pos |].
    intros Hx. apply scale_exponent_floor; assumption.
  - intros f. apply int_truediv_sgn; [apply pow10_pos |].
    intros Hx. apply scale_exponent_floor; assumption.
  - intros H0 H1.
    assert (Hl0 : Z.abs (leg0 is_reverse swap) <= 2 ^ 256)
      by (destruct is_reverse; assumption).
    assert (Hl1 : Z.abs (leg1 is_reverse swap) <= 2 ^ 256)
      by (destruct is_reverse; assumption).
    destruct (scale_accuracy _ _ Hl0 Hd0) as (f0 & E0 & _).
    destruct (scale_accuracy _ _ Hl1 Hd1) as (f1 & E1 & _).
    exists f0, f1. auto.
Qed.

End Amounts.

(** * List comprehensions that may raise *)

Section Comprehension.

Context {A B : Type}.
Implicit Types (f g : A -> result B) (xs : list A) (ys : list B).

Lemma list_comprehension_ok f xs ys :
  list_comprehension f xs = Ok ys ->
  Forall2 (fun x y => f x = Ok y) xs ys.
Proof.
  revert ys. induction xs as [| x xs IH]; intros ys; simpl.
  - intros [= <-]. constructor.
  - destruct (f x) as [y |] eqn:Ex; simpl; [| discriminate].
    destruct (list_comprehension f xs) as [ys' |]; simpl; [| discriminate].
    intros [= <-]. constructor; auto.
Qed.

Lemma list_comprehension_raise f xs x e :
  In x xs -> f x = Raise e ->
  exists e', list_comprehension f xs = Raise e'.
Proof.
  induction xs as [| x' xs IH]; simpl; [tauto |].
  intros [-> | Hin] Hx.
  - rewrite Hx. simpl. eauto.
  - destruct (f x') as [y |]; simpl; [| eauto].
    destruct (IH Hin Hx) as [e' ->]. simpl. eauto.
Qed.

Lemma list_comprehension_raised_by f xs e :
  list_comprehension f xs = Raise e ->
  exists x, In x xs /\ f x = Raise e.
Proof.
  induction xs as [| x xs IH]; simpl; [discriminate |].
  destruct (f x) as [y |] eqn:Ex; simpl.
  - destruct (list_comprehension f xs) as [ys |]; simpl; [discriminate |].
    intros [= <-]. destruct (IH eq_refl) as (x' & Hin & Hx'). eauto.
  - intros [= <-]. eauto.
Qed.

Lemma list_comprehension_ext f g xs :
  (forall x, f x = g x) ->
  list_comprehension f xs = list_comprehension g xs.
Proof.
  intros H. induction xs as [| x xs IH]; simpl; [reflexivity |].
  now rewrite H, IH.
Qed.

End Comprehension.

(** * One observation pass *)

Section Observe.

Context {F : Type}.
Variable civil_time : Z -> result string.
Variable hex_prefix : string.
Implicit Types (self : iService F) (swap : LogReceipt) (st : F).

Lemma row_raises_without_block self is_reverse blockchain swap e :
  get_block (_repository self) (blockNumber swap) = Raise e ->
  exists e', row civil_time hex_prefix self is_reverse blockchain swap = Raise e'.
Proof.
  intros Hb. unfold row.
  destruct (_amount0 self is_reverse swap); simpl; [| eauto].
  destruct (_amount1 self is_reverse swap); simpl; [| eauto].
  rewrite Hb. simpl. eauto.
Qed.

Lemma row_ok self is_reverse blockchain swap r :
  row civil_time hex_prefix self is_reverse blockchain swap = Ok r ->
  exists a0 a1 blk t,
    _amount0 self is_reverse swap = Ok a0 /\
    _amount1 self is_reverse swap = Ok a1 /\
    get_block (_repository self) (blockNumber swap) = Ok blk /\
    civil_time (timestamp blk) = Ok t /\
    r = (blockchain,
         _contract_address (_repository self),
         recipient (args swap),
         _token0_symbol (_repository self),
         _token1_symbol (_repository self),
         a0, a1,
         HexBytes_hex hex_prefix (transactionHash swap),
         t).
Proof.
  unfold row.
  destruct (_amount0 self is_reverse swap) as [a0 |]; simpl; [| discriminate].
  destruct (_amount1 self is_reverse swap) as [a1 |]; simpl; [| discriminate].
  destruct (get_block _ _) as [blk |]; simpl; [| discriminate].
  destruct (civil_time _) as [t |] eqn:Et; simpl; [| discriminate].
  intros [= <-]. exists a0, a1, blk, t. auto.
Qed.

(** C6. When the block of any one entry of the batch is not found, the
    pass yields nothing and ends with an exception; the exception is the
    lookup's own whenever no other step of any row raises another. *)
Theorem observe_yields_nothing_when_a_block_is_missing
        self is_reverse blockchain st swap :
  In swap (fst (get_new_entries (_repository self) st)) ->
  get_block (_repository self) (blockNumber swap) = Raise BlockNotFound ->
  let pass := fst (observe civil_time hex_prefix self is_reverse blockchain st) in
  yielded pass = [] /\
  (exists e, raised pass = Some e) /\
  ((forall s e, In s (fst (get_new_entries (_repository self) st)) ->
                row civil_time hex_prefix self is_reverse blockchain s = Raise e ->
                e = BlockNotFound) ->
   raised pass = Some BlockNotFound).
Proof.
  intros Hin Hb. unfold observe.
  destruct (get_new_entries (_repository self) st) as [entries st'].
  simpl in Hin |- *.
  destruct (row_raises_without_block self is_reverse blockchain swap _ Hb) as [e0 He0].
  destruct (list_comprehension_raise _ _ _ _ Hin He0) as [e' He'].
  rewrite He'. simpl. split; [reflexivity |]. split; [eauto |].
  intros Hall.
  destruct (list_comprehension_raised_by _ _ _ He') as (s & Hs & Hrow).
  now rewrite (Hall s e' Hs Hrow).
Qed.

(** C7. A pass that ends without an exception yields one list, with one
    row per entry returned by [get_new_entries], in the same order; each
    row is the tuple of the chain, the pool address, the recipient, the two
    token symbols, [_amount0], [_amount1], the transaction hash in
    hexadecimal and the civil time of the entry's block. *)
Theorem observe_yields_one_row_per_entry self is_reverse blockchain st :
  let pass := fst (observe civil_time hex_prefix self is_reverse blockchain st) in
  let entries := fst (get_new_entries (_repository self) st) in
  raised pass = None ->
  exists rows,
    yielded pass = [rows] /\
    List.length rows = List.length entries /\
    Forall2
      (fun swap r =>
         exists a0 a1 blk t,
           _amount0 self is_reverse swap = Ok a0 /\
           _amount1 self is_reverse swap = Ok a1 /\
           get_block (_repository self) (blockNumber swap) = Ok blk /\
           civil_time (timestamp blk) = Ok t /\
           r = (blockchain,
                _contract_address (_repository self),
                recipient (args swap),
                _token0_symbol (_repository self),
                _token1_symbol (_repository self),
                a0, a1,
                HexBytes_hex hex_prefix (transactionHash swap),
                t))
      entries rows.
Proof.
  cbv zeta. unfold observe.
  destruct (get_new_entries (_repository self) st) as [entries st'].
  destruct (list_comprehension _ entries) as [rows |] eqn:E; simpl; [| discriminate].
  intros _. exists rows.
  pose proof (list_comprehension_ok _ _ _ E) as Hall.
  split; [reflexivity |]. split.
  - symmetry. exact (Forall2_length Hall).
  - eapply Forall2_impl; [| exact Hall].
    intros swap r. apply row_ok.
Qed.

(** C9. The HTTP service runs the methods of the WebSocket service on its
    own repository: when the two repositories expose the same data,
    [_amount0], [_amount1] and [observe] give the same results. *)
Theorem http_service_computes_as_wss_service (wss http : Repository F) :
  same_data http wss ->
  (forall is_reverse swap,
     _amount0 (UniSwapV3HTTPService http) is_reverse swap
     = _amount0 (UniSwapV3WSSService wss) is_reverse swap) /\
  (forall is_reverse swap,
     _amount1 (UniSwapV3HTTPService http) is_reverse swap
     = _amount1 (UniSwapV3WSSService wss) is_reverse swap) /\
  (forall is_reverse blockchain st,
     observe civil_time hex_prefix (UniSwapV3HTTPService http) is_reverse blockchain st
     = observe civil_time hex_prefix (UniSwapV3WSSService wss) is_reverse blockchain st).
Proof.
  intros (Hd0 & Hd1 & Hs0 & Hs1 & Hc & Hb & Hn).
  assert (H0 : forall is_reverse swap,
             _amount0 (UniSwapV3HTTPService http) is_reverse swap
             = _amount0 (UniSwapV3WSSService wss) is_reverse swap).
  { intros. unfold _amount0. simpl. now rewrite Hd0. }
  assert (H1 : forall is_reverse swap,
             _amount1 (UniSwapV3HTTPService http) is_reverse swap
             = _amount1 (UniSwapV3WSSService wss) is_reverse swap).
  { intros. unfold _amount1. simpl. now rewrite Hd1. }
  split; [exact H0 |]. split; [exact H1 |].
  intros is_reverse blockchain st. unfold observe. simpl.
  rewrite Hn. destruct (get_new_entries wss st) as [entries st'].
  rewrite (list_comprehension_ext
             (row civil_time hex_prefix (UniSwapV3HTTPService http) is_reverse blockchain)
             (row civil_time hex_prefix (UniSwapV3WSSService wss) is_reverse blockchain)).
  - reflexivity.
  - intros swap. unfold row. rewrite H0, H1. simpl.
    now rewrite Hb, Hc, Hs0, Hs1.
Qed.

End Observe.

(** * At-most-once delivery of the push filter *)

Section AtMostOnce.

Import PushFilter.

(** Every delivered log is in exactly one place: in one of the batches
    already returned, or still in the buffer. *)
Lemma run_accounts_for_every_log (acts : list action) (buf : state) :
  List.concat (fst (run acts buf)) ++ snd (run acts buf) = buf ++ delivered acts.
Proof.
  revert buf. induction acts as [| [e |] acts IH]; intros buf; simpl.
  - now rewrite app_nil_r.
  - rewrite IH. unfold deliver. now rewrite <- app_assoc.
  - specialize (IH []). destruct (run acts []) as [batches final].
    simpl in *. now rewrite <- app_assoc, IH.
Qed.

Lemma NoDup_app_disjoint {A : Type} (l l' : list A) (a : A) :
  NoDup (l ++ l') -> In a l -> ~ In a l'.
Proof.
  induction l as [| b l IH]; simpl; [tauto |].
  intros Hnd [-> | Hin] Ha'.
  - inversion Hnd as [| ? ? Hnotin _]; subst.
    apply Hnotin, in_or_app. now right.
  - inversion Hnd; subst. now apply IH.
Qed.

Lemma distinct_across_batches {A B : Type} (f : A -> B) (bs : list (list A)) :
  NoDup (map f (List.concat bs)) ->
  forall i j bi bj x y,
    (i < j)%nat ->
    nth_error bs i = Some bi -> nth_error bs j = Some bj ->
    In x bi -> In y bj -> f y <> f x.
Proof.
  induction bs as [| b bs IH]; intros Hnd i j bi bj x y Hij Hi Hj Hx Hy.
  - destruct i; discriminate.
  - simpl in Hnd. rewrite map_app in Hnd.
    destruct j as [| j]; [lia |]. simpl in Hj.
    destruct i as [| i]; simpl in Hi.
    + injection Hi as <-.
      intros Heq. apply (NoDup_app_disjoint _ _ (f x) Hnd).
      * now apply in_map.
      * rewrite <- Heq. apply in_map. apply in_concat.
        exists bj. split; [eapply nth_error_In; eassumption | assumption].
    + apply NoDup_app_remove_l in Hnd.
      apply (IH Hnd i j bi bj x y); auto. lia.
Qed.

(** On one filter instance whose subscription delivers every
    transaction hash once, no poll returns a log whose transaction hash
    an earlier poll of that instance has returned. *)
Lemma pollNew_never_returns_a_hash_twice
        (acts : list action) (i j : nat) (earlier later : list LogReceipt)
        (e e' : LogReceipt) :
  NoDup (map transactionHash (delivered acts)) ->
  (i < j)%nat ->
  nth_error (fst (run acts [])) i = Some earlier ->
  nth_error (fst (run acts [])) j = Some later ->
  In e earlier -> In e' later ->
  transactionHash e' <> transactionHash e.
Proof.
  intros Hnd Hij Hi Hj He He'.
  pose proof (run_accounts_for_every_log acts []) as Hacc. simpl in Hacc.
  rewrite <- Hacc, map_app in Hnd. apply NoDup_app_remove_r in Hnd.
  exact (distinct_across_batches transactionHash _ Hnd i j earlier later e e' Hij Hi Hj He He').
Qed.

End AtMostOnce.

(** * The model of [int / int] against the standard library's division

    On operands that are floats themselves, [int_truediv] returns what the
    IEEE-754 division [SFdiv] of the standard library returns, down to the
    subnormal range. *)

Example int_truediv_agrees_with_SFdiv :
  int_truediv 1 10
    = Ok (SFdiv 53 1024 (S754_finite false 1 0) (S754_finite false 10 0)) /\
  int_truediv (-7) 3
    = Ok (SFdiv 53 1024 (S754_finite true 7 0) (S754_finite false 3 0)) /\
  int_truediv (-2500000) (10 ^ 18)
    = Ok (SFdiv 53 1024 (S754_finite true 2500000 0)
                        (S754_finite false (10 ^ 18) 0)) /\
  int_truediv (10 ^ 18) (10 ^ 6)
    = Ok (SFdiv 53 1024 (S754_finite false (10 ^ 18) 0)
                        (S754_finite false (10 ^ 6) 0)) /\
  int_truediv 1 (10 ^ 320)
    = Ok (SFdiv 53 1024 (S754_finite false 1 0)
                        (S754_finite false (10 ^ 320) 0)) /\
  int_truediv 1 (10 ^ 400) = Ok (S754_zero false) /\
  int_truediv (2 ^ 1024) 1 = Raise OverflowError /\
  int_truediv 1 0 = Raise ZeroDivisionError.
Proof.
  repeat split; vm_compute; reflexivity.
Qed.

(** * The claims on the concrete pool *)

Section Concrete.

Import Example.

(** C2 fails as stated: with 18 and 6 decimals the amounts are
    [{1.0, -2.5}] without the flag and [{1e12, -2.5e-12}] with it. *)
Lemma reverse_changes_the_pair_for_unequal_decimals :
  ~ same_pair (_amount0 service false swap, _amount1 service false swap)
              (_amount1 service true swap, _amount0 service true swap).
Proof.
  intros [H | H]; vm_compute in H; discriminate H.
Qed.

Lemma reverse_keeps_the_pair_witness :
  _token0_decimals (_repository dime_service)
    = _token1_decimals (_repository dime_service) /\
  same_pair (_amount0 dime_service false dime_swap, _amount1 dime_service false dime_swap)
            (_amount1 dime_service true dime_swap, _amount0 dime_service true dime_swap).
Proof.
  split; [reflexivity |].
  apply (reverse_keeps_the_pair_for_equal_decimals dime_service dime_swap).
  reflexivity.
Defined.

(** C3 fails as stated: one raw unit of a one-decimal token is computed as
    the float [0.1], which is not the rational [1/10]. *)
Lemma a_tenth_is_not_computed_exactly :
  Z.abs (amount0 (args dime_swap)) <= 2 ^ 256 /\
  (_token0_decimals (_repository dime_service) <= 77)%N /\
  exists f,
    _amount0 dime_service false dime_swap = Ok f /\
    ~ (to_Q f == exact_scale (amount0 (args dime_swap))
                             (_token0_decimals (_repository dime_service)))%Q.
Proof.
  split; [vm_compute; discriminate |]. split; [vm_compute; discriminate |].
  eexists. split; [vm_compute; reflexivity |].
  vm_compute. discriminate.
Qed.

Lemma amounts_are_within_half_an_ulp_witness :
  Z.abs (amount0 (args swap)) <= 2 ^ 256 /\
  Z.abs (amount1 (args swap)) <= 2 ^ 256 /\
  (_token0_decimals (_repository service) <= 255)%N /\
  (_token1_decimals (_repository service) <= 255)%N /\
  exists f0 f1,
    _amount0 service true swap = Ok f0 /\
    _amount1 service true swap = Ok f1 /\
    valid_binary 53 1024 f0 = true /\
    valid_binary 53 1024 f1 = true /\
    (Qabs (to_Q f0 - exact_scale (leg0 true swap) (_token0_decimals (_repository service)))
     <= Qabs (exact_scale (leg0 true swap) (_token0_decimals (_repository service)))
        * (1 # 2 ^ 53))%Q /\
    (Qabs (to_Q f1 - exact_scale (leg1 true swap) (_token1_decimals (_repository service)))
     <= Qabs (exact_scale (leg1 true swap) (_token1_decimals (_repository service)))
        * (1 # 2 ^ 53))%Q.
Proof.
  assert (H0 : Z.abs (amount0 (args swap)) <= 2 ^ 256) by (vm_compute; discriminate).
  assert (H1 : Z.abs (amount1 (args swap)) <= 2 ^ 256) by (vm_compute; discriminate).
  assert (Hd0 : (_token0_decimals (_repository service) <= 255)%N)
    by (vm_compute; discriminate).
  assert (Hd1 : (_token1_decimals (_repository service) <= 255)%N)
    by (vm_compute; discriminate).
  repeat (split; [assumption |]).
  exact (amounts_are_within_half_an_ulp service true swap H0 H1 Hd0 Hd1).
Defined.

Lemma example_forward_amounts_witness :
  _token0_decimals (_repository service) = 18%N /\
  _token1_decimals (_repository service) = 6%N /\
  amount0 (args swap) = 1000000000000000000 /\
  amount1 (args swap) = -2500000 /\
  _amount0 service false swap = Ok one /\
  _amount1 service false swap = Ok minus_two_and_a_half /\
  (to_Q one == 1)%Q /\
  (to_Q minus_two_and_a_half == - (5 # 2))%Q.
Proof.
  do 4 (split; [reflexivity |]).
  exact (example_forward_amounts service swap eq_refl eq_refl eq_refl eq_refl).
Defined.

(** C5 fails as stated: with the reverse flag amount0 is not [-2.5]. *)
Lemma example_reverse_amount0_is_not_minus_two_and_a_half :
  _token0_decimals (_repository service) = 18%N /\
  _token1_decimals (_repository service) = 6%N /\
  amount0 (args swap) = 1000000000000000000 /\
  amount1 (args swap) = -2500000 /\
  _amount0 service true swap <> Ok minus_two_and_a_half.
Proof.
  do 4 (split; [reflexivity |]).
  vm_compute. discriminate.
Qed.

Lemma example_reverse_amounts_witness :
  _token0_decimals (_repository service) = 18%N /\
  _token1_decimals (_repository service) = 6%N /\
  amount0 (args swap) = 1000000000000000000 /\
  amount1 (args swap) = -2500000 /\
  _amount0 service true swap = Ok minus_2_5e_12 /\
  _amount1 service true swap = Ok ten_to_the_12 /\
  (Qabs (to_Q minus_2_5e_12 - (-25 # 10 ^ 13))
   <= (25 # 10 ^ 13) * (1 # 2 ^ 53))%Q /\
  (to_Q ten_to_the_12 == 1000000000000 # 1)%Q.
Proof.
  do 4 (split; [reflexivity |]).
  exact (example_reverse_amounts service swap eq_refl eq_refl eq_refl eq_refl).
Defined.

Lemma amounts_keep_the_sign_of_their_leg_witness :
  (_token0_decimals (_repository service) <= 255)%N /\
  (_token1_decimals (_repository service) <= 255)%N /\
  (forall f, _amount0 service true swap = Ok f -> sgn f = Z.sgn (leg0 true swap)) /\
  (forall f, _amount1 service true swap = Ok f -> sgn f = Z.sgn (leg1 true swap)) /\
  (Z.abs (amount0 (args swap)) <= 2 ^ 256 ->
   Z.abs (amount1 (args swap)) <= 2 ^ 256 ->
   exists f0 f1,
     _amount0 service true swap = Ok f0 /\
     _amount1 service true swap = Ok f1).
Proof.
  assert (Hd0 : (_token0_decimals (_repository service) <= 255)%N)
    by (vm_compute; discriminate).
  assert (Hd1 : (_token1_decimals (_repository service) <= 255)%N)
    by (vm_compute; discriminate).
  repeat (split; [assumption |]).
  exact (amounts_keep_the_sign_of_their_leg service true swap Hd0 Hd1).
Defined.

Lemma observe_yields_nothing_when_a_block_is_missing_witness :
  In orphan (fst (get_new_entries (_repository service) [swap; orphan; swap'])) /\
  get_block (_repository service) (blockNumber orphan) = Raise BlockNotFound /\
  let pass := fst (observe utc_civil_time "0x" service false "ethereum"
                           [swap; orphan; swap']) in
  yielded pass = [] /\
  (exists e, raised pass = Some e) /\
  ((forall s e, In s (fst (get_new_entries (_repository service) [swap; orphan; swap'])) ->
                row utc_civil_time "0x" service false "ethereum" s = Raise e ->
                e = BlockNotFound) ->
   raised pass = Some BlockNotFound).
Proof.
  assert (Hin : In orphan (fst (get_new_entries (_repository service)
                                                [swap; orphan; swap'])))
    by (simpl; auto).
  assert (Hb : get_block (_repository service) (blockNumber orphan) = Raise BlockNotFound)
    by reflexivity.
  split; [exact Hin |]. split; [exact Hb |].
  exact (observe_yields_nothing_when_a_block_is_missing
           utc_civil_time "0x" service false "ethereum" [swap; orphan; swap'] orphan Hin Hb).
Defined.

Lemma observe_yields_one_row_per_entry_witness :
  raised (fst (observe utc_civil_time "0x" service true "ethereum" [swap; swap'])) = None /\
  exists rows,
    yielded (fst (observe utc_civil_time "0x" service true "ethereum" [swap; swap']))
      = [rows] /\
    List.length rows
      = List.length (fst (get_new_entries (_repository service) [swap; swap'])) /\
    Forall2
      (fun s r =>
         exists a0 a1 blk t,
           _amount0 service true s = Ok a0 /\
           _amount1 service true s = Ok a1 /\
           get_block (_repository service) (blockNumber s) = Ok blk /\
           utc_civil_time (timestamp blk) = Ok t /\
           r = ("ethereum"%string,
                _contract_address (_repository service),
                recipient (args s),
                _token0_symbol (_repository service),
                _token1_symbol (_repository service),
                a0, a1,
                HexBytes_hex "0x" (transactionHash s),
                t))
      (fst (get_new_entries (_repository service) [swap; swap'])) rows.
Proof.
  assert (H : raised (fst (observe utc_civil_time "0x" service true "ethereum"
                                   [swap; swap'])) = None)
    by (vm_compute; reflexivity).
  split; [exact H |].
  exact (observe_yields_one_row_per_entry
           utc_civil_time "0x" service true "ethereum" [swap; swap'] H).
Defined.

Lemma pollNew_never_returns_a_hash_twice_witness :
  let acts := [PushFilter.Deliver swap; PushFilter.Poll;
               PushFilter.Deliver swap'; PushFilter.Poll] in
  NoDup (map transactionHash (PushFilter.delivered acts)) /\
  (0 < 1)%nat /\
  nth_error (fst (PushFilter.run acts [])) 0 = Some [swap] /\
  nth_error (fst (PushFilter.run acts [])) 1 = Some [swap'] /\
  In swap [swap] /\ In swap' [swap'] /\
  transactionHash swap' <> transactionHash swap.
Proof.
  intros acts.
  assert (Hnd : NoDup (map transactionHash (PushFilter.delivered acts))).
  { simpl. constructor; [| constructor; [| constructor]]; simpl.
    - intros [H | []]; discriminate H.
    - intros []. }
  assert (Hlt : (0 < 1)%nat) by lia.
  assert (Hi : nth_error (fst (PushFilter.run acts [])) 0 = Some [swap]) by reflexivity.
  assert (Hj : nth_error (fst (PushFilter.run acts [])) 1 = Some [swap']) by reflexivity.
  assert (He : In swap [swap]) by (simpl; auto).
  assert (He' : In swap' [swap']) by (simpl; auto).
  repeat (split; [assumption |]).
  exact (pollNew_never_returns_a_hash_twice acts 0 1 [swap] [swap'] swap swap'
           Hnd Hlt Hi Hj He He').
Defined.

Lemma http_service_computes_as_wss_service_witness :
  same_data repository repository /\
  (forall is_reverse s,
     _amount0 (UniSwapV3HTTPService repository) is_reverse s
     = _amount0 (UniSwapV3WSSService repository) is_reverse s) /\
  (forall is_reverse s,
     _amount1 (UniSwapV3HTTPService repository) is_reverse s
     = _amount1 (UniSwapV3WSSService repository) is_reverse s) /\
  (forall is_reverse blockchain st,
     observe utc_civil_time "0x" (UniSwapV3HTTPService repository) is_reverse blockchain st
     = observe utc_civil_time "0x" (UniSwapV3WSSService repository) is_reverse blockchain st).
Proof.
  assert (H : same_data repository repository) by (repeat split).
  split; [exact H |].
  exact (http_service_computes_as_wss_service utc_civil_time "0x" repository repository H).
Defined.

End Concrete.

(** * More facts about [int / int] *)

Section MoreFloatFacts.

Lemma rne_div_exact (q d : Z) : 0 < d -> rne_div (q * d) d = q.
Proof.
  intros Hd. unfold rne_div.
  rewrite Z.div_mul, Z.mod_mul by lia.
  replace (2 * 0 <? d) with true by (symmetry; apply Z.ltb_lt; lia).
  reflexivity.
Qed.

(** The exponent of the leading bit of a whole quotient is that of the
    quotient. *)
Lemma quot_log2_multiple (k b : Z) :
  0 < k -> 0 < b -> quot_log2 (k * b) b = Z.log2 k.
Proof.
  intros Hk Hb.
  pose proof (quot_log2_spec (k * b) b ltac:(nia) Hb) as [Hlo Hhi].
  set (fl := quot_log2 (k * b) b) in *.
  destruct (Z.le_gt_cases 0 fl) as [Hfl | Hfl].
  - rewrite num_at_high, den_at_high in * by lia.
    symmetry. apply Z.log2_unique; [assumption |].
    rewrite Z.pow_succ_r by assumption.
    assert (0 < 2 ^ fl) by (apply Z.pow_pos_nonneg; lia).
    split; nia.
  - rewrite num_at_low, den_at_low in * by lia.
    assert (2 <= 2 ^ (- fl)).
    { change 2 with (2 ^ 1) at 1. apply Z.pow_le_mono_r; lia. }
    assert (2 <= k * 2 ^ (- fl)) by nia.
    replace (k * b * 2 ^ (- fl)) with (k * 2 ^ (- fl) * b) in Hhi by ring.
    nia.
Qed.

Lemma int_truediv_multiple (k b : Z) :
  0 < b -> 0 < Z.abs k < 2 ^ prec ->
  exists p e,
    int_truediv (k * b) b = Ok (S754_finite (k <? 0) p e) /\
    e <= 0 /\ Zpos p = Z.abs k * 2 ^ (- e).
Proof.
  intros Hb Hk. unfold int_truediv.
  destruct (Z.eqb_spec b 0) as [| _]; [lia |].
  replace (b <? 0) with false by (symmetry; apply Z.ltb_ge; lia).
  replace (k * b <? 0) with (k <? 0)
    by (destruct (Z.ltb_spec k 0), (Z.ltb_spec (k * b) 0); try reflexivity; nia).
  rewrite xorb_false_r, (Z.abs_eq b), Z.abs_mul, (Z.abs_eq b) by lia.
  destruct (Z.eqb_spec (Z.abs k * b) 0) as [| _]; [nia |].
  rewrite quot_log2_multiple by lia.
  pose proof (Z.log2_nonneg (Z.abs k)) as Hl0.
  assert (Hl1 : Z.log2 (Z.abs k) < prec) by (apply Z.log2_lt_pow2; lia).
  destruct (Z.log2_spec (Z.abs k) ltac:(lia)) as [Hs1 Hs2].
  unfold prec, emin, emax_mant in *.
  rewrite Z.max_l by lia.
  set (e := Z.log2 (Z.abs k) - (53 - 1)) in *.
  rewrite num_at_low, den_at_low by lia.
  replace (Z.abs k * b * 2 ^ (- e)) with (Z.abs k * 2 ^ (- e) * b) by ring.
  rewrite rne_div_exact by assumption.
  assert (Hsplit : 2 ^ 52 = 2 ^ Z.log2 (Z.abs k) * 2 ^ (- e)).
  { rewrite <- Z.pow_add_r by lia. f_equal. lia. }
  rewrite Z.pow_succ_r in Hs2 by assumption.
  assert (Hpos : 0 < 2 ^ (- e)) by (apply Z.pow_pos_nonneg; lia).
  change (2 ^ 53) with 9007199254740992 in *.
  change (2 ^ 52) with 4503599627370496 in *.
  assert (Hm : 4503599627370496 <= Z.abs k * 2 ^ (- e) < 9007199254740992) by nia.
  destruct (Z.eqb_spec (Z.abs k * 2 ^ (- e)) 9007199254740992) as [| _]; [lia |].
  replace (971 <? e) with false by (symmetry; apply Z.ltb_ge; lia).
  destruct (Z.abs k * 2 ^ (- e)) as [| p | p] eqn:Em; try lia.
  exists p, e. repeat split; lia.
Qed.

Lemma to_Q_multiple (k : Z) (p : positive) (e : Z) :
  e <= 0 -> Zpos p = Z.abs k * 2 ^ (- e) ->
  (to_Q (S754_finite (k <? 0) p e) == inject_Z k)%Q.
Proof.
  intros He Hp. rewrite to_Q_finite.
  rewrite Z.max_l by lia. rewrite Z.max_r by lia.
  assert (Hpos : 0 < 2 ^ (- e)) by (apply Z.pow_pos_nonneg; lia).
  unfold Qeq, inject_Z. cbn [Qnum Qden].
  rewrite Z2Pos.id by assumption.
  destruct (Z.ltb_spec k 0).
  - change (Z.neg p) with (- Z.pos p). rewrite Hp. rewrite Z.abs_neq by lia.
    change (2 ^ 0) with 1. ring.
  - rewrite Hp, Z.abs_eq by lia. change (2 ^ 0) with 1. ring.
Qed.

Lemma scale_whole (k : Z) (d : N) :
  Z.abs k < 2 ^ 53 ->
  exists f, scale (k * 10 ^ Z.of_N d) d = Ok f /\ (to_Q f == inject_Z k)%Q.
Proof.
  intros Hk. unfold scale.
  destruct (Z.eq_dec k 0) as [-> | Hk0].
  - exists (S754_zero false). split; [| reflexivity].
    rewrite Z.mul_0_l. apply int_truediv_zero, pow10_pos.
  - destruct (int_truediv_multiple k (10 ^ Z.of_N d) (pow10_pos d)
                ltac:(unfold prec; lia)) as (p & e & Hf & He & Hp).
    exists (S754_finite (k <? 0) p e). split; [exact Hf |].
    now apply to_Q_multiple.
Qed.

(** The only exception of a division by a positive number is
    [OverflowError], and it takes a dividend of at least 1024 bits. *)
Lemma int_truediv_raise (a b : Z) (x : exn) :
  0 < b -> int_truediv a b = Raise x ->
  x = OverflowError /\ 2 ^ 1023 <= Z.abs a.
Proof.
  intros Hb. unfold int_truediv.
  destruct (Z.eqb_spec b 0) as [| _]; [lia |].
  rewrite (Z.abs_eq b) by lia.
  destruct (Z.eqb_spec (Z.abs a) 0) as [| Hn]; [discriminate |].
  set (n := Z.abs a) in *.
  pose proof (quot_log2_bounds n b) as Hq.
  pose proof (Z.log2_nonneg b) as Hlb.
  destruct (Z.log2_spec n ltac:(lia)) as [Hs _].
  assert (Hbig : 971 <= Z.max (quot_log2 n b - (prec - 1)) emin -> 2 ^ 1023 <= n).
  { unfold prec, emin. intros H.
    transitivity (2 ^ Z.log2 n); [apply Z.pow_le_mono_r; lia | assumption]. }
  set (e := Z.max (quot_log2 n b - (prec - 1)) emin) in *.
  unfold emax_mant.
  destruct (_ =? 2 ^ prec); cbv beta iota.
  - destruct (Z.ltb_spec 971 (e + 1)).
    + intros [= <-]. split; [reflexivity | apply Hbig; lia].
    + discriminate.
  - destruct (Z.ltb_spec 971 e).
    + intros [= <-]. split; [reflexivity | apply Hbig; lia].
    + destruct (rne_div _ _); discriminate.
Qed.

Lemma int_truediv_overflow (a b : Z) :
  0 < b -> 2 ^ 1024 * b <= Z.abs a ->
  int_truediv a b = Raise OverflowError.
Proof.
  intros Hb Ha. unfold int_truediv.
  destruct (Z.eqb_spec b 0) as [| _]; [lia |].
  rewrite (Z.abs_eq b) by lia.
  assert (H1024 : 0 < 2 ^ 1024) by (apply Z.pow_pos_nonneg; lia).
  destruct (Z.eqb_spec (Z.abs a) 0) as [| Hn]; [nia |].
  set (n := Z.abs a) in *.
  pose proof (quot_log2_spec n b ltac:(lia) Hb) as [_ Hhi].
  assert (Hfl : 1024 <= quot_log2 n b).
  { destruct (Z.le_gt_cases 1024 (quot_log2 n b)) as [| Hlt]; [assumption | exfalso].
    destruct (Z.le_gt_cases 0 (quot_log2 n b)).
    - rewrite num_at_high, den_at_high in Hhi by lia.
      assert (2 * 2 ^ quot_log2 n b <= 2 ^ 1024).
      { rewrite <- Z.pow_succ_r by lia. apply Z.pow_le_mono_r; lia. }
      nia.
    - rewrite num_at_low, den_at_low in Hhi by lia.
      assert (0 < 2 ^ (- quot_log2 n b)) by (apply Z.pow_pos_nonneg; lia).
      nia. }
  unfold prec, emin, emax_mant in *.
  rewrite Z.max_l by lia.
  destruct (_ =? 2 ^ 53); cbv beta iota.
  - replace (971 <? _) with true by (symmetry; apply Z.ltb_lt; lia). reflexivity.
  - replace (971 <? _) with true by (symmetry; apply Z.ltb_lt; lia). reflexivity.
Qed.

(** Negating a non-zero dividend negates the quotient. *)
Lemma int_truediv_opp (a b : Z) :
  a <> 0 -> int_truediv (- a) b = negated (int_truediv a b).
Proof.
  intros Ha. unfold int_truediv, negated.
  destruct (b =? 0); [reflexivity |].
  rewrite Z.abs_opp.
  destruct (Z.eqb_spec (Z.abs a) 0) as [| _]; [lia |].
  replace (- a <? 0) with (negb (a <? 0))
    by (destruct (Z.ltb_spec a 0), (Z.ltb_spec (- a) 0); try reflexivity; lia).
  rewrite <- negb_xorb_l.
  destruct (_ =? 2 ^ prec); cbv beta iota.
  - destruct (emax_mant <? _); reflexivity.
  - destruct (emax_mant <? _); [reflexivity |].
    destruct (rne_div _ _); reflexivity.
Qed.

Lemma rne_div_mono (n n' d : Z) :
  0 < d -> n <= n' -> rne_div n d <= rne_div n' d.
Proof.
  intros Hd Hn. unfold rne_div.
  pose proof (Z.div_mod n d ltac:(lia)) as E.
  pose proof (Z.div_mod n' d ltac:(lia)) as E'.
  pose proof (Z.mod_pos_bound n d Hd) as Hr.
  pose proof (Z.mod_pos_bound n' d Hd) as Hr'.
  assert (Hq : n / d <= n' / d) by (apply Z.div_le_mono; lia).
  destruct (Z.eq_dec (n / d) (n' / d)) as [Heq | Hne].
  - rewrite <- Heq in *.
    assert (n mod d <= n' mod d) by lia.
    destruct (Z.ltb_spec (2 * (n mod d)) d), (Z.ltb_spec (2 * (n' mod d)) d);
      try lia;
      destruct (Z.ltb_spec d (2 * (n mod d))), (Z.ltb_spec d (2 * (n' mod d)));
      try lia; destruct (Z.even (n / d)); lia.
  - destruct (_ <? _); [| destruct (_ <? _); [| destruct (Z.even (n / d))]];
      (destruct (_ <? _); [| destruct (_ <? _); [| destruct (Z.even (n' / d))]]); lia.
Qed.

Lemma num_at_mono (n n' e : Z) : n <= n' -> num_at n e <= num_at n' e.
Proof.
  intros H. unfold num_at.
  assert (0 < 2 ^ Z.max 0 (- e)) by (apply Z.pow_pos_nonneg; lia). nia.
Qed.

(** [n / b < 2^k] carries over to every larger exponent. *)
Lemma below_power_shift (n b k k' : Z) :
  0 < n -> 0 < b -> k < k' ->
  num_at n k < 2 * den_at b k -> num_at n k' < den_at b k'.
Proof.
  intros Hn Hb Hk H.
  pose proof (fraction_shift n b k' (k' - k) ltac:(lia)) as Hs.
  replace (k' - (k' - k)) with k in Hs by lia.
  pose proof (den_at_pos b k Hb). pose proof (den_at_pos b k' Hb).
  pose proof (num_at_pos n k' Hn).
  assert (2 <= 2 ^ (k' - k)).
  { change 2 with (2 ^ 1) at 1. apply Z.pow_le_mono_r; lia. }
  apply (Z.mul_lt_mono_pos_r (den_at b k)); [assumption |].
  apply (Z.mul_lt_mono_pos_l 2); [lia |].
  nia.
Qed.

Lemma quot_log2_mono (n n' b : Z) :
  0 < n -> n <= n' -> 0 < b -> quot_log2 n b <= quot_log2 n' b.
Proof.
  intros Hn Hle Hb.
  destruct (Z.le_gt_cases (quot_log2 n b) (quot_log2 n' b)) as [| Hgt]; [assumption |].
  exfalso.
  pose proof (quot_log2_spec n b Hn Hb) as [Hlo _].
  pose proof (quot_log2_spec n' b ltac:(lia) Hb) as [_ Hhi'].
  pose proof (below_power_shift n' b _ _ ltac:(lia) Hb Hgt Hhi').
  pose proof (num_at_mono n n' (quot_log2 n b) Hle). lia.
Qed.

Lemma dyadic_le (m m' e e' : Z) :
  e <= e' -> m <= m' * 2 ^ (e' - e) -> (dyadic m e <= dyadic m' e')%Q.
Proof.
  intros He Hm. unfold dyadic, Qle. cbn [Qnum Qden].
  assert (P1 : 0 < 2 ^ Z.max 0 e) by (apply Z.pow_pos_nonneg; lia).
  assert (P2 : 0 < 2 ^ Z.max 0 (- e)) by (apply Z.pow_pos_nonneg; lia).
  assert (P3 : 0 < 2 ^ Z.max 0 e') by (apply Z.pow_pos_nonneg; lia).
  assert (P4 : 0 < 2 ^ Z.max 0 (- e')) by (apply Z.pow_pos_nonneg; lia).
  rewrite !Z2Pos.id by assumption.
  assert (Hkey : 2 ^ Z.max 0 e' * 2 ^ Z.max 0 (- e)
                 = 2 ^ (e' - e) * (2 ^ Z.max 0 e * 2 ^ Z.max 0 (- e'))).
  { rewrite <- !Z.pow_add_r by lia. f_equal. lia. }
  assert (P5 : 0 < 2 ^ Z.max 0 e * 2 ^ Z.max 0 (- e')) by nia.
  assert (Hr : m' * 2 ^ Z.max 0 e' * 2 ^ Z.max 0 (- e)
               = m' * 2 ^ (e' - e) * (2 ^ Z.max 0 e * 2 ^ Z.max 0 (- e'))).
  { transitivity (m' * (2 ^ Z.max 0 e' * 2 ^ Z.max 0 (- e))); [ring |].
    rewrite Hkey. ring. }
  rewrite Hr.
  replace (m * 2 ^ Z.max 0 e * 2 ^ Z.max 0 (- e'))
    with (m * (2 ^ Z.max 0 e * 2 ^ Z.max 0 (- e'))) by ring.
  apply Z.mul_le_mono_nonneg_r; lia.
Qed.

(** What a division of positive numbers returns, as a rational. *)
Lemma int_truediv_value (n b : Z) (f : float) :
  0 < n -> 0 < b -> int_truediv n b = Ok f ->
  let e := Z.max (quot_log2 n b - (prec - 1)) emin in
  (to_Q f == dyadic (rne_div (num_at n e) (den_at b e)) e)%Q.
Proof.
  intros Hn Hb. unfold int_truediv.
  destruct (Z.eqb_spec b 0) as [| _]; [lia |].
  rewrite (Z.abs_eq b), (Z.abs_eq n) by lia.
  destruct (Z.eqb_spec n 0) as [| _]; [lia |].
  replace (n <? 0) with false by (symmetry; apply Z.ltb_ge; lia).
  replace (b <? 0) with false by (symmetry; apply Z.ltb_ge; lia).
  simpl xorb. cbv zeta.
  set (e := Z.max (quot_log2 n b - (prec - 1)) emin).
  set (m := rne_div (num_at n e) (den_at b e)).
  assert (P2 : 0 < 2 ^ Z.max 0 (- e)) by (apply Z.pow_pos_nonneg; lia).
  assert (P2' : 0 < 2 ^ Z.max 0 (- (e + 1))) by (apply Z.pow_pos_nonneg; lia).
  destruct (Z.eqb_spec m (2 ^ prec)) as [Hm | Hm].
  - destruct (emax_mant <? e + 1); [discriminate |]. intros [= <-].
    change (2 ^ (prec - 1)) with 4503599627370496.
    rewrite to_Q_finite, Hm. unfold dyadic, Qeq. cbn [Qnum Qden].
    rewrite !Z2Pos.id by assumption.
    change (2 ^ prec) with (2 * 4503599627370496).
    destruct (Z.le_gt_cases 0 e).
    + replace (Z.max 0 (e + 1)) with (e + 1) by lia.
      replace (Z.max 0 (- (e + 1))) with 0 by lia.
      replace (Z.max 0 e) with e by lia.
      replace (Z.max 0 (- e)) with 0 by lia.
      rewrite Z.pow_add_r by lia. change (2 ^ 0) with 1. change (2 ^ 1) with 2. ring.
    + replace (Z.max 0 (e + 1)) with 0 by lia.
      replace (Z.max 0 e) with 0 by lia.
      replace (Z.max 0 (- e)) with (- (e + 1) + 1) by lia.
      replace (Z.max 0 (- (e + 1))) with (- (e + 1)) by lia.
      rewrite Z.pow_add_r by lia. change (2 ^ 0) with 1. change (2 ^ 1) with 2. ring.
  - destruct (emax_mant <? e); [discriminate |].
    destruct m as [| p | p] eqn:Em; intros [= <-].
    + unfold dyadic, Qeq. simpl. reflexivity.
    + rewrite to_Q_finite. reflexivity.
    + unfold dyadic, Qeq. simpl.
      (* a negative mantissa cannot come out of rounding a positive quotient *)
      exfalso.
      pose proof (rne_div_lower (num_at n e) (den_at b e) 0 (den_at_pos b e Hb)
                    ltac:(pose proof (num_at_pos n e Hn); lia)).
      fold m in H. lia.
Qed.

Lemma int_truediv_mono_pos (n n' b : Z) (f f' : float) :
  0 < n -> n <= n' -> 0 < b ->
  int_truediv n b = Ok f -> int_truediv n' b = Ok f' ->
  (to_Q f <= to_Q f')%Q.
Proof.
  intros Hn Hle Hb Hf Hf'.
  rewrite (int_truediv_value n b f Hn Hb Hf).
  rewrite (int_truediv_value n' b f' ltac:(lia) Hb Hf').
  pose proof (quot_log2_mono n n' b Hn Hle Hb) as Hfl.
  set (fl := quot_log2 n b) in *. set (fl' := quot_log2 n' b) in *.
  set (e := Z.max (fl - (prec - 1)) emin). set (e' := Z.max (fl' - (prec - 1)) emin).
  assert (He : e <= e') by (subst e e'; lia).
  apply dyadic_le; [assumption |].
  pose proof (den_at_pos b e Hb) as Hden.
  destruct (Z.eq_dec e e') as [Heq | Hne].
  - rewrite <- Heq, Z.sub_diag, Z.mul_1_r.
    apply rne_div_mono; [assumption | now apply num_at_mono].
  - assert (Hlt : e < e') by lia.
    assert (He' : e' = fl' - (prec - 1)) by (subst e e'; lia).
    assert (Hfl' : fl < fl') by (subst e e'; lia).
    (* the larger quotient is normal: its mantissa has 53 bits *)
    pose proof (mantissa_range n' b ltac:(lia) Hb) as [Hlo' _]. cbv zeta in Hlo'.
    fold fl' in Hlo'. rewrite <- He' in Hlo'.
    pose proof (rne_div_lower _ _ _ (den_at_pos b e' Hb) Hlo') as Hm'.
    (* the smaller quotient is below [2^fl'] *)
    pose proof (quot_log2_spec n b Hn Hb) as [_ Hhi]. fold fl in Hhi.
    pose proof (below_power_shift n b fl fl' Hn Hb Hfl' Hhi) as Hbelow.
    assert (Hj : 53 <= fl' - e) by (unfold prec in He'; lia).
    pose proof (fraction_shift n b fl' (fl' - e) ltac:(lia)) as Hs.
    replace (fl' - (fl' - e)) with e in Hs by lia.
    pose proof (den_at_pos b fl' Hb) as Hden'.
    assert (Hp : 0 < 2 ^ (fl' - e)) by (apply Z.pow_pos_nonneg; lia).
    assert (Hup : num_at n e < 2 ^ (fl' - e) * den_at b e).
    { apply (Z.mul_lt_mono_pos_r (den_at b fl')); [assumption |].
      rewrite Hs. nia. }
    pose proof (rne_div_upper _ _ _ Hden Hup) as Hm.
    assert (Hpow : 2 ^ (fl' - e) = 2 ^ (prec - 1) * 2 ^ (e' - e)).
    { rewrite <- Z.pow_add_r by (unfold prec; lia). f_equal. unfold prec in *. lia. }
    assert (0 < 2 ^ (e' - e)) by (apply Z.pow_pos_nonneg; lia).
    nia.
Qed.

Lemma to_Q_SFopp (f : float) : (to_Q (SFopp f) == - to_Q f)%Q.
Proof.
  destruct f as [s | s | | s m [| k | k]]; try destruct s; unfold Qeq; simpl; lia.
Qed.

Lemma int_truediv_nonneg (n b : Z) (f : float) :
  0 < n -> 0 < b -> int_truediv n b = Ok f -> (0 <= to_Q f)%Q.
Proof.
  intros Hn Hb Hf. rewrite (int_truediv_value n b f Hn Hb Hf).
  set (e := Z.max _ emin).
  pose proof (rne_div_lower (num_at n e) (den_at b e) 0 (den_at_pos b e Hb)
                ltac:(pose proof (num_at_pos n e Hn); lia)) as Hm.
  unfold dyadic, Qle. cbn [Qnum Qden].
  assert (0 < 2 ^ Z.max 0 e) by (apply Z.pow_pos_nonneg; lia).
  simpl. nia.
Qed.

Lemma int_truediv_neg (a b : Z) (f : float) :
  a < 0 -> int_truediv a b = Ok f ->
  exists g, int_truediv (- a) b = Ok g /\ (to_Q f == - to_Q g)%Q.
Proof.
  intros Ha Hf.
  pose proof (int_truediv_opp (- a) b ltac:(lia)) as Ho.
  rewrite Z.opp_involutive, Hf in Ho. unfold negated in Ho.
  destruct (int_truediv (- a) b) as [g |]; simpl in Ho; [| discriminate].
  injection Ho as ->. exists g. split; [reflexivity | apply to_Q_SFopp].
Qed.

(** A larger dividend never gives a smaller quotient. *)
Lemma int_truediv_mono (a a' b : Z) (f f' : float) :
  0 < b -> a <= a' ->
  int_truediv a b = Ok f -> int_truediv a' b = Ok f' ->
  (to_Q f <= to_Q f')%Q.
Proof.
  intros Hb Hle Hf Hf'.
  assert (Hz : forall h, int_truediv 0 b = Ok h -> (to_Q h == 0)%Q).
  { intros h. rewrite int_truediv_zero by assumption. now intros [= <-]. }
  destruct (Z.lt_trichotomy a 0) as [Ha | [-> | Ha]].
  - destruct (int_truediv_neg a b f Ha Hf) as (g & Hg & ->).
    pose proof (int_truediv_nonneg (- a) b g ltac:(lia) Hb Hg) as Hg0.
    destruct (Z.lt_trichotomy a' 0) as [Ha' | [-> | Ha']].
    + destruct (int_truediv_neg a' b f' Ha' Hf') as (g' & Hg' & ->).
      apply Qopp_le_compat.
      exact (int_truediv_mono_pos (- a') (- a) b g' g ltac:(lia) ltac:(lia) Hb Hg' Hg).
    + rewrite (Hz f' Hf'). apply (Qopp_le_compat 0). exact Hg0.
    + pose proof (int_truediv_nonneg a' b f' Ha' Hb Hf') as Hf0.
      apply Qle_trans with 0%Q; [apply (Qopp_le_compat 0); exact Hg0 | exact Hf0].
  - rewrite (Hz f Hf).
    destruct (Z.eq_dec a' 0) as [-> | Hne].
    + rewrite (Hz f' Hf'). apply Qle_refl.
    + exact (int_truediv_nonneg a' b f' ltac:(lia) Hb Hf').
  - exact (int_truediv_mono_pos a a' b f f' Ha Hle Hb Hf Hf').
Qed.

End MoreFloatFacts.

(** * More on the amounts *)

Section MoreAmounts.

Context {F : Type}.
Implicit Types (self : iService F) (swap : LogReceipt).

(** X1. A raw leg that is a whole number [k] of tokens, [|k| < 2^53], is
    divided without any rounding: the amount is exactly [k], whatever the
    number of decimals. *)
Theorem whole_amounts_are_exact self is_reverse swap (k0 k1 : Z) :
  Z.abs k0 < 2 ^ 53 ->
  Z.abs k1 < 2 ^ 53 ->
  leg0 is_reverse swap = k0 * 10 ^ Z.of_N (_token0_decimals (_repository self)) ->
  leg1 is_reverse swap = k1 * 10 ^ Z.of_N (_token1_decimals (_repository self)) ->
  exists f0 f1,
    _amount0 self is_reverse swap = Ok f0 /\
    _amount1 self is_reverse swap = Ok f1 /\
    (to_Q f0 == inject_Z k0)%Q /\
    (to_Q f1 == inject_Z k1)%Q.
Proof.
  intros Hk0 Hk1 H0 H1.
  rewrite _amount0_scale, _amount1_scale, H0, H1.
  destruct (scale_whole k0 (_token0_decimals (_repository self)) Hk0) as (f0 & E0 & V0).
  destruct (scale_whole k1 (_token1_decimals (_repository self)) Hk1) as (f1 & E1 & V1).
  exists f0, f1. auto.
Qed.

(** X2. The only exception [_amount0] and [_amount1] raise is
    [OverflowError]: never [ZeroDivisionError], never below a raw leg of
    [2^1023], and always from [2^1024 * 10^decimals] on. *)
Theorem amounts_raise_nothing_but_OverflowError self is_reverse swap :
  (forall x, _amount0 self is_reverse swap = Raise x ->
             x = OverflowError /\ 2 ^ 1023 <= Z.abs (leg0 is_reverse swap)) /\
  (forall x, _amount1 self is_reverse swap = Raise x ->
             x = OverflowError /\ 2 ^ 1023 <= Z.abs (leg1 is_reverse swap)) /\
  (2 ^ 1024 * 10 ^ Z.of_N (_token0_decimals (_repository self))
     <= Z.abs (leg0 is_reverse swap) ->
   _amount0 self is_reverse swap = Raise OverflowError) /\
  (2 ^ 1024 * 10 ^ Z.of_N (_token1_decimals (_repository self))
     <= Z.abs (leg1 is_reverse swap) ->
   _amount1 self is_reverse swap = Raise OverflowError).
Proof.
  rewrite _amount0_scale, _amount1_scale. unfold scale.
  repeat split.
  - eapply int_truediv_raise; [apply pow10_pos | eassumption].
  - eapply int_truediv_raise; [apply pow10_pos | eassumption].
  - eapply int_truediv_raise; [apply pow10_pos | eassumption].
  - eapply int_truediv_raise; [apply pow10_pos | eassumption].
  - apply int_truediv_overflow, pow10_pos.
  - apply int_truediv_overflow, pow10_pos.
Qed.

(** X3. Negating both raw legs of a swap negates both amounts, provided
    neither leg is zero (a zero leg gives [0.0] either way). *)
Theorem mirrored_swap_has_negated_amounts self is_reverse swap :
  amount0 (args swap) <> 0 ->
  amount1 (args swap) <> 0 ->
  _amount0 self is_reverse (mirror_legs swap) = negated (_amount0 self is_reverse swap) /\
  _amount1 self is_reverse (mirror_legs swap) = negated (_amount1 self is_reverse swap).
Proof.
  intros H0 H1.
  rewrite !_amount0_scale, !_amount1_scale. unfold scale.
  destruct is_reverse; simpl; split; apply int_truediv_opp; assumption.
Qed.

(** X4. A larger raw leg never gives a smaller amount: both methods are
    monotone in the leg they divide, rounding included. *)
Theorem amounts_are_monotone_in_their_leg
        self is_reverse swap swap' (f0 f0' f1 f1' : float) :
  leg0 is_reverse swap <= leg0 is_reverse swap' ->
  leg1 is_reverse swap <= leg1 is_reverse swap' ->
  _amount0 self is_reverse swap = Ok f0 ->
  _amount0 self is_reverse swap' = Ok f0' ->
  _amount1 self is_reverse swap = Ok f1 ->
  _amount1 self is_reverse swap' = Ok f1' ->
  (to_Q f0 <= to_Q f0')%Q /\ (to_Q f1 <= to_Q f1')%Q.
Proof.
  rewrite !_amount0_scale, !_amount1_scale. unfold scale.
  intros H0 H1 E0 E0' E1 E1'. split.
  - exact (int_truediv_mono _ _ _ _ _ (pow10_pos _) H0 E0 E0').
  - exact (int_truediv_mono _ _ _ _ _ (pow10_pos _) H1 E1 E1').
Qed.

End MoreAmounts.

(** * The transaction hash as a string *)

Section Hex.

(** The character code of a hexadecimal digit. *)
Lemma hex_digit_code (k : N) :
  (k < 16)%N ->
  N_of_ascii (hex_digit k) = (if (k <? 10)%N then 48 + k else 87 + k)%N.
Proof.
  intros Hk. destruct k as [| p]; [reflexivity |].
  do 4 (destruct p as [p | p |]; try reflexivity); lia.
Qed.

Lemma hex_digit_inj (n m : N) :
  (n < 16)%N -> (m < 16)%N -> hex_digit n = hex_digit m -> n = m.
Proof.
  intros Hn Hm H. apply (f_equal N_of_ascii) in H.
  rewrite !hex_digit_code in H by assumption.
  destruct (N.ltb_spec n 10), (N.ltb_spec m 10); lia.
Qed.

Lemma byte_of_its_digits (b b' : Byte.byte) :
  hex_digit (Byte.to_N b / 16) = hex_digit (Byte.to_N b' / 16) ->
  hex_digit (Byte.to_N b mod 16) = hex_digit (Byte.to_N b' mod 16) ->
  b = b'.
Proof.
  intros Hhi Hlo.
  pose proof (Byte.to_N_bounded b) as Hb. pose proof (Byte.to_N_bounded b') as Hb'.
  apply hex_digit_inj in Hhi;
    [| apply N.Div0.div_lt_upper_bound; lia | apply N.Div0.div_lt_upper_bound; lia].
  apply hex_digit_inj in Hlo; [| apply N.mod_lt; lia | apply N.mod_lt; lia].
  assert (E : Byte.to_N b = Byte.to_N b').
  { rewrite (N.div_mod (Byte.to_N b) 16), (N.div_mod (Byte.to_N b') 16) by lia.
    now rewrite Hhi, Hlo. }
  pose proof (Byte.of_to_N b) as H1. pose proof (Byte.of_to_N b') as H2.
  rewrite E in H1. congruence.
Qed.

Lemma bytes_hex_inj (h h' : list Byte.byte) :
  bytes_hex h = bytes_hex h' -> h = h'.
Proof.
  revert h'. induction h as [| b h IH]; intros [| b' h']; simpl; try discriminate.
  - reflexivity.
  - intros [= Hhi Hlo Hrest].
    f_equal; [apply byte_of_its_digits; assumption | now apply IH].
Qed.

Lemma bytes_hex_length (h : list Byte.byte) :
  String.length (bytes_hex h) = (2 * List.length h)%nat.
Proof.
  induction h as [| b h IH]; simpl; [reflexivity |]. rewrite IH. lia.
Qed.

Lemma append_inj_r (p s s' : string) :
  (p ++ s)%string = (p ++ s')%string -> s = s'.
Proof.
  induction p as [| c p IH]; simpl; [auto |]. intros [= H]. auto.
Qed.

Lemma append_length (p s : string) :
  String.length (p ++ s) = (String.length p + String.length s)%nat.
Proof.
  induction p as [| c p IH]; simpl; [reflexivity |]. now rewrite IH.
Qed.

Lemma HexBytes_hex_inj (hex_prefix : string) (h h' : list Byte.byte) :
  HexBytes_hex hex_prefix h = HexBytes_hex hex_prefix h' -> h = h'.
Proof.
  unfold HexBytes_hex. intros H. apply bytes_hex_inj. eapply append_inj_r. eassumption.
Qed.

(** X5. The hash column identifies the transaction: two hashes with the
    same rendering are the same bytes, and the rendering has two
    characters per byte after the prefix. *)
Theorem HexBytes_hex_identifies_the_hash (hex_prefix : string) (h h' : list Byte.byte) :
  (HexBytes_hex hex_prefix h = HexBytes_hex hex_prefix h' -> h = h') /\
  String.length (HexBytes_hex hex_prefix h)
  = (String.length hex_prefix + 2 * List.length h)%nat.
Proof.
  split.
  - apply HexBytes_hex_inj.
  - unfold HexBytes_hex. now rewrite append_length, bytes_hex_length.
Qed.

End Hex.

(** * More on list comprehensions *)

Section MoreComprehension.

Context {A B : Type}.
Implicit Types (f : A -> result B) (xs : list A).

Lemma list_comprehension_first_raise f (pre post : list A) (x : A) (e : exn) :
  Forall (fun y => exists r, f y = Ok r) pre ->
  f x = Raise e ->
  list_comprehension f (pre ++ x :: post) = Raise e.
Proof.
  intros Hpre Hx. induction Hpre as [| y pre [r Hy] _ IH]; simpl.
  - now rewrite Hx.
  - now rewrite Hy, IH.
Qed.

Lemma list_comprehension_all_ok f xs :
  Forall (fun x => exists y, f x = Ok y) xs ->
  exists ys, list_comprehension f xs = Ok ys.
Proof.
  induction 1 as [| x xs [y Hy] _ [ys IH]]; simpl.
  - eauto.
  - rewrite Hy, IH. simpl. eauto.
Qed.

Lemma list_comprehension_map {C : Type} f (g : C -> A) (zs : list C) :
  list_comprehension f (map g zs) = list_comprehension (fun z => f (g z)) zs.
Proof.
  induction zs as [| z zs IH]; simpl; [reflexivity |]. now rewrite IH.
Qed.

End MoreComprehension.

Lemma NoDup_map_of_injective {A B : Type} (f : A -> B) (l : list A) :
  (forall x y, f x = f y -> x = y) -> NoDup l -> NoDup (map f l).
Proof.
  intros Hinj. induction 1 as [| x l Hx _ IH]; simpl; constructor; [| exact IH].
  intros Hin. apply in_map_iff in Hin. destruct Hin as (y & Hy & Hin).
  apply Hinj in Hy. now subst y.
Qed.

(** * More on one observation pass *)

Section MoreObserve.

Context {F : Type}.
Variable civil_time : Z -> result string.
Variable hex_prefix : string.
Implicit Types (self : iService F) (swap : LogReceipt) (st : F).

(** X6. The steps of a row raise in the order they are written: an
    exception of [_amount0] is the row's, else one of [_amount1], else one
    of the block lookup, else one of the time rendering.  A missing block
    is therefore reported only for a swap whose two amounts are computed. *)
Theorem row_raises_the_first_exception self is_reverse blockchain swap (e : exn) :
  row civil_time hex_prefix self is_reverse blockchain swap = Raise e <->
  _amount0 self is_reverse swap = Raise e \/
  (exists a0, _amount0 self is_reverse swap = Ok a0) /\
  (_amount1 self is_reverse swap = Raise e \/
   (exists a1, _amount1 self is_reverse swap = Ok a1) /\
   (get_block (_repository self) (blockNumber swap) = Raise e \/
    exists blk, get_block (_repository self) (blockNumber swap) = Ok blk /\
                civil_time (timestamp blk) = Raise e)).
Proof.
  unfold row.
  destruct (_amount0 self is_reverse swap) as [a0 | e0]; simpl.
  2:{ split; [intros [= <-]; left; reflexivity | intros H; break_cases H]. }
  destruct (_amount1 self is_reverse swap) as [a1 | e1]; simpl.
  2:{ split; [intros [= <-]; right; split; [eauto | left; reflexivity]
             | intros H; break_cases H]. }
  destruct (get_block _ _) as [blk | eb]; simpl.
  2:{ split; [intros [= <-]; right; split; [eauto |]; right; split; [eauto |];
              left; reflexivity
             | intros H; break_cases H]. }
  destruct (civil_time _) as [t | et] eqn:Et; simpl.
  - split; [discriminate | intros H; break_cases H].
  - split; [intros [= <-]; right; split; [eauto |]; right; split; [eauto |];
            right; eauto
           | intros H; break_cases H].
Qed.

Lemma row_ok_iff self is_reverse blockchain swap :
  (exists r, row civil_time hex_prefix self is_reverse blockchain swap = Ok r) <->
  (exists a0, _amount0 self is_reverse swap = Ok a0) /\
  (exists a1, _amount1 self is_reverse swap = Ok a1) /\
  (exists blk, get_block (_repository self) (blockNumber swap) = Ok blk /\
               exists t, civil_time (timestamp blk) = Ok t).
Proof.
  split.
  - intros [r Hr]. destruct (row_ok _ _ _ _ _ _ _ Hr) as (a0 & a1 & blk & t & H0 & H1 & Hb & Ht & _).
    eauto 8.
  - intros ([a0 H0] & [a1 H1] & (blk & Hb & [t Ht])).
    unfold row. rewrite H0, H1. simpl. rewrite Hb. simpl. rewrite Ht. simpl. eauto.
Qed.

(** X7. A pass ends without exception exactly when, for every entry of
    the batch, both amounts are computed, the block is found and its time
    is rendered. *)
Theorem observe_succeeds_iff_every_row_does self is_reverse blockchain st :
  raised (fst (observe civil_time hex_prefix self is_reverse blockchain st)) = None <->
  Forall
    (fun swap =>
       (exists a0, _amount0 self is_reverse swap = Ok a0) /\
       (exists a1, _amount1 self is_reverse swap = Ok a1) /\
       (exists blk, get_block (_repository self) (blockNumber swap) = Ok blk /\
                    exists t, civil_time (timestamp blk) = Ok t))
    (fst (get_new_entries (_repository self) st)).
Proof.
  unfold observe.
  destruct (get_new_entries (_repository self) st) as [entries st']. simpl.
  destruct (list_comprehension _ entries) as [rows | e] eqn:E; simpl.
  - split; [intros _ | reflexivity].
    pose proof (list_comprehension_ok _ _ _ E) as Hall.
    clear E. induction Hall as [| s r entries rows Hr _ IH]; constructor; [| exact IH].
    apply (proj1 (row_ok_iff self is_reverse blockchain s)). eauto.
  - split; [discriminate |]. intros Hall. exfalso.
    destruct (list_comprehension_all_ok
                (row civil_time hex_prefix self is_reverse blockchain) entries) as [ys Hys].
    + eapply Forall_impl; [| exact Hall]. intros s Hs.
      now apply (proj2 (row_ok_iff self is_reverse blockchain s)).
    + congruence.
Qed.

(** X8. The exception that ends a pass is that of the first entry, in
    batch order, whose row raises; entries after it are not looked at, and
    nothing is yielded. *)
Theorem observe_raises_the_first_failure
        self is_reverse blockchain st (pre post : list LogReceipt) swap (e : exn) :
  fst (get_new_entries (_repository self) st) = pre ++ swap :: post ->
  Forall (fun s => exists r, row civil_time hex_prefix self is_reverse blockchain s = Ok r)
         pre ->
  row civil_time hex_prefix self is_reverse blockchain swap = Raise e ->
  fst (observe civil_time hex_prefix self is_reverse blockchain st)
  = {| yielded := []; raised := Some e |}.
Proof.
  intros Hent Hpre Hrow. unfold observe.
  destruct (get_new_entries (_repository self) st) as [entries st']. simpl in *.
  subst entries. now rewrite (list_comprehension_first_raise _ _ _ _ _ Hpre Hrow).
Qed.

(** X9. Whatever the pass does, it yields at most once, a whole batch or
    nothing, and it leaves the filter in the state [get_new_entries] left
    it in: entries of a pass that raised are not put back. *)
Theorem observe_yields_a_whole_batch_or_nothing self is_reverse blockchain st :
  let pass := fst (observe civil_time hex_prefix self is_reverse blockchain st) in
  let entries := fst (get_new_entries (_repository self) st) in
  snd (observe civil_time hex_prefix self is_reverse blockchain st)
  = snd (get_new_entries (_repository self) st) /\
  ((exists rows, yielded pass = [rows] /\ raised pass = None /\
                 List.length rows = List.length entries) \/
   (exists e, yielded pass = [] /\ raised pass = Some e)).
Proof.
  cbv zeta. unfold observe.
  destruct (get_new_entries (_repository self) st) as [entries st']. simpl.
  destruct (list_comprehension _ entries) as [rows | e] eqn:E; simpl.
  - split; [reflexivity |]. left. exists rows. repeat split.
    symmetry. exact (Forall2_length (list_comprehension_ok _ _ _ E)).
  - split; [reflexivity |]. right. eauto.
Qed.

(** X10. When the filter has nothing new, the pass still yields once: one
    empty list, without consulting the node. *)
Theorem observe_of_no_entries_yields_an_empty_batch self is_reverse blockchain st :
  fst (get_new_entries (_repository self) st) = [] ->
  fst (observe civil_time hex_prefix self is_reverse blockchain st)
  = {| yielded := [[]]; raised := None |}.
Proof.
  intros He. unfold observe.
  destruct (get_new_entries (_repository self) st) as [entries st']. simpl in He.
  now subst entries.
Qed.

(** X11. Observing with the reverse flag is observing without it the
    batch whose logs have their legs exchanged: amount by amount, row by
    row and for the whole comprehension. *)
Theorem reverse_flag_exchanges_the_legs self is_reverse blockchain swap :
  _amount0 self (negb is_reverse) swap = _amount0 self is_reverse (exchange_legs swap) /\
  _amount1 self (negb is_reverse) swap = _amount1 self is_reverse (exchange_legs swap) /\
  row civil_time hex_prefix self (negb is_reverse) blockchain swap
  = row civil_time hex_prefix self is_reverse blockchain (exchange_legs swap) /\
  (forall entries,
     list_comprehension (row civil_time hex_prefix self (negb is_reverse) blockchain) entries
     = list_comprehension (row civil_time hex_prefix self is_reverse blockchain)
                          (map exchange_legs entries)) /\
  exchange_legs (exchange_legs swap) = swap.
Proof.
  assert (H0 : forall s, _amount0 self (negb is_reverse) s
                         = _amount0 self is_reverse (exchange_legs s))
    by (intros s; destruct is_reverse; reflexivity).
  assert (H1 : forall s, _amount1 self (negb is_reverse) s
                         = _amount1 self is_reverse (exchange_legs s))
    by (intros s; destruct is_reverse; reflexivity).
  assert (Hr : forall s, row civil_time hex_prefix self (negb is_reverse) blockchain s
                         = row civil_time hex_prefix self is_reverse blockchain
                               (exchange_legs s))
    by (intros s; unfold row; rewrite H0, H1; reflexivity).
  repeat split; auto.
  - intros entries. rewrite list_comprehension_map.
    apply list_comprehension_ext. exact Hr.
  - destruct swap as [[r a0 a1] h b]. reflexivity.
Qed.

(** X12. In a pass that succeeds, the hash column of the rows is the
    rendering of the entries' transaction hashes, in order; entries with
    pairwise distinct hashes give rows with pairwise distinct hash
    strings. *)
Theorem observe_keeps_hashes_apart self is_reverse blockchain st (rows : list Row) :
  yielded (fst (observe civil_time hex_prefix self is_reverse blockchain st)) = [rows] ->
  map (fun r : Row => snd (fst r)) rows
  = map (fun s => HexBytes_hex hex_prefix (transactionHash s))
        (fst (get_new_entries (_repository self) st)) /\
  (NoDup (map transactionHash (fst (get_new_entries (_repository self) st))) ->
   NoDup (map (fun r : Row => snd (fst r)) rows)).
Proof.
  unfold observe.
  destruct (get_new_entries (_repository self) st) as [entries st']. simpl.
  destruct (list_comprehension _ entries) as [rows' | e] eqn:E; simpl; [| discriminate].
  intros [= <-].
  pose proof (list_comprehension_ok _ _ _ E) as Hall.
  assert (Hmap : map (fun r : Row => snd (fst r)) rows'
                 = map (fun s => HexBytes_hex hex_prefix (transactionHash s)) entries).
  { clear E. induction Hall as [| s r entries rows Hr _ IH]; simpl; [reflexivity |].
    destruct (row_ok _ _ _ _ _ _ _ Hr) as (a0 & a1 & blk & t & _ & _ & _ & _ & ->).
    simpl. now rewrite IH. }
  split; [exact Hmap |].
  intros Hnd. rewrite Hmap.
  rewrite <- (map_map transactionHash (HexBytes_hex hex_prefix)).
  apply NoDup_map_of_injective; [| assumption].
  intros h h'. apply HexBytes_hex_inj.
Qed.

End MoreObserve.

(** * The further properties on the concrete pool *)

Section MoreConcrete.

Import Example Edge.

Lemma whole_amounts_are_exact_witness :
  Z.abs 3 < 2 ^ 53 /\
  Z.abs (-7) < 2 ^ 53 /\
  leg0 false whole_swap = 3 * 10 ^ Z.of_N (_token0_decimals (_repository service)) /\
  leg1 false whole_swap = -7 * 10 ^ Z.of_N (_token1_decimals (_repository service)) /\
  exists f0 f1,
    _amount0 service false whole_swap = Ok f0 /\
    _amount1 service false whole_swap = Ok f1 /\
    (to_Q f0 == inject_Z 3)%Q /\
    (to_Q f1 == inject_Z (-7))%Q.
Proof.
  assert (H3 : Z.abs 3 < 2 ^ 53) by reflexivity.
  assert (H7 : Z.abs (-7) < 2 ^ 53) by reflexivity.
  assert (H0 : leg0 false whole_swap
               = 3 * 10 ^ Z.of_N (_token0_decimals (_repository service)))
    by reflexivity.
  assert (H1 : leg1 false whole_swap
               = -7 * 10 ^ Z.of_N (_token1_decimals (_repository service)))
    by reflexivity.
  repeat (split; [assumption |]).
  exact (whole_amounts_are_exact service false whole_swap 3 (-7) H3 H7 H0 H1).
Defined.

Lemma mirrored_swap_has_negated_amounts_witness :
  amount0 (args swap) <> 0 /\
  amount1 (args swap) <> 0 /\
  _amount0 service true (mirror_legs swap) = negated (_amount0 service true swap) /\
  _amount1 service true (mirror_legs swap) = negated (_amount1 service true swap).
Proof.
  assert (H0 : amount0 (args swap) <> 0) by discriminate.
  assert (H1 : amount1 (args swap) <> 0) by discriminate.
  repeat (split; [assumption |]).
  exact (mirrored_swap_has_negated_amounts service true swap H0 H1).
Defined.

Lemma amounts_are_monotone_in_their_leg_witness :
  leg0 false swap <= leg0 false bigger_swap /\
  leg1 false swap <= leg1 false bigger_swap /\
  _amount0 service false swap = Ok one /\
  _amount0 service false bigger_swap = Ok two /\
  _amount1 service false swap = Ok minus_two_and_a_half /\
  _amount1 service false bigger_swap = Ok minus_one /\
  (to_Q one <= to_Q two)%Q /\
  (to_Q minus_two_and_a_half <= to_Q minus_one)%Q.
Proof.
  assert (H0 : leg0 false swap <= leg0 false bigger_swap) by (vm_compute; discriminate).
  assert (H1 : leg1 false swap <= leg1 false bigger_swap) by (vm_compute; discriminate).
  assert (E0 : _amount0 service false swap = Ok one) by reflexivity.
  assert (E0' : _amount0 service false bigger_swap = Ok two) by reflexivity.
  assert (E1 : _amount1 service false swap = Ok minus_two_and_a_half) by reflexivity.
  assert (E1' : _amount1 service false bigger_swap = Ok minus_one) by reflexivity.
  do 6 (split; [assumption |]).
  exact (amounts_are_monotone_in_their_leg service false swap bigger_swap
           one two minus_two_and_a_half minus_one H0 H1 E0 E0' E1 E1').
Defined.

Lemma observe_raises_the_first_failure_witness :
  fst (get_new_entries (_repository service) [swap; huge_swap; orphan])
  = [swap] ++ huge_swap :: [orphan] /\
  Forall (fun s => exists r, row utc_civil_time "0x" service false "ethereum" s = Ok r)
         [swap] /\
  row utc_civil_time "0x" service false "ethereum" huge_swap = Raise OverflowError /\
  fst (observe utc_civil_time "0x" service false "ethereum" [swap; huge_swap; orphan])
  = {| yielded := []; raised := Some OverflowError |}.
Proof.
  assert (He : fst (get_new_entries (_repository service) [swap; huge_swap; orphan])
               = [swap] ++ huge_swap :: [orphan]) by reflexivity.
  assert (Hp : Forall (fun s => exists r,
                         row utc_civil_time "0x" service false "ethereum" s = Ok r)
                      [swap]).
  { constructor; [| constructor]. eexists. vm_compute. reflexivity. }
  assert (Hr : row utc_civil_time "0x" service false "ethereum" huge_swap
               = Raise OverflowError) by (vm_compute; reflexivity).
  repeat (split; [assumption |]).
  exact (observe_raises_the_first_failure utc_civil_time "0x" service false "ethereum"
           [swap; huge_swap; orphan] [swap] [orphan] huge_swap OverflowError He Hp Hr).
Defined.

Lemma observe_of_no_entries_yields_an_empty_batch_witness :
  fst (get_new_entries (_repository service) []) = [] /\
  fst (observe utc_civil_time "0x" service true "ethereum" [])
  = {| yielded := [[]]; raised := None |}.
Proof.
  assert (He : fst (get_new_entries (_repository service) []) = []) by reflexivity.
  split; [exact He |].
  exact (observe_of_no_entries_yields_an_empty_batch
           utc_civil_time "0x" service true "ethereum" [] He).
Defined.

Lemma observe_keeps_hashes_apart_witness :
  let pass := fst (observe utc_civil_time "0x" service false "ethereum" [swap; swap']) in
  let rows := hd [] (yielded pass) in
  yielded pass = [rows] /\
  map (fun r : Row => snd (fst r)) rows
  = map (fun s => HexBytes_hex "0x" (transactionHash s))
        (fst (get_new_entries (_repository service) [swap; swap'])) /\
  (NoDup (map transactionHash (fst (get_new_entries (_repository service) [swap; swap']))) ->
   NoDup (map (fun r : Row => snd (fst r)) rows)).
Proof.
  intros pass rows.
  assert (Hy : yielded pass = [rows]) by (vm_compute; reflexivity).
  split; [exact Hy |].
  exact (observe_keeps_hashes_apart utc_civil_time "0x" service false "ethereum"
           [swap; swap'] rows Hy).
Defined.

End MoreConcrete.

(** * [int / int] rounds to nearest *)

Section Nearest.

Lemma below_is_farther (u v x : Q) :
  (u <= v)%Q -> (v <= x)%Q -> (Qabs (v - x) <= Qabs (u - x))%Q.
Proof.
  intros Huv Hvx. rewrite (Qabs_neg (v - x)), (Qabs_neg (u - x)) by lra. lra.
Qed.

Lemma dyadic_0 (e : Z) : (dyadic 0 e == 0)%Q.
Proof. unfold dyadic, Qeq. simpl. reflexivity. Qed.

(** A coarser grid is part of every finer one. *)
Lemma dyadic_refine (z e e' : Z) :
  e' <= e -> (dyadic z e == dyadic (z * 2 ^ (e - e')) e')%Q.
Proof.
  intros He. unfold dyadic, Qeq. cbn [Qnum Qden].
  assert (P1 : 0 < 2 ^ Z.max 0 (- e)) by (apply Z.pow_pos_nonneg; lia).
  assert (P2 : 0 < 2 ^ Z.max 0 (- e')) by (apply Z.pow_pos_nonneg; lia).
  rewrite !Z2Pos.id by assumption.
  assert (Hkey : 2 ^ Z.max 0 e * 2 ^ Z.max 0 (- e')
                 = 2 ^ (e - e') * (2 ^ Z.max 0 e' * 2 ^ Z.max 0 (- e))).
  { rewrite <- !Z.pow_add_r by lia. f_equal. lia. }
  transitivity (z * (2 ^ Z.max 0 e * 2 ^ Z.max 0 (- e'))); [ring |].
  rewrite Hkey. ring.
Qed.

(** The distance of a point of the grid of exponent [e] to [n / b],
    brought to the integers. *)
Lemma grid_distance (n b k k' e : Z) :
  0 < b ->
  Z.abs (k * den_at b e - num_at n e) <= Z.abs (k' * den_at b e - num_at n e) ->
  (Qabs (dyadic k e - (n # Z.to_pos b)) <= Qabs (dyadic k' e - (n # Z.to_pos b)))%Q.
Proof.
  intros Hb H. unfold dyadic, num_at, den_at in *.
  assert (P1 : 0 < 2 ^ Z.max 0 e) by (apply Z.pow_pos_nonneg; lia).
  assert (P2 : 0 < 2 ^ Z.max 0 (- e)) by (apply Z.pow_pos_nonneg; lia).
  unfold Qle, Qabs, Qminus, Qplus, Qopp. cbn [Qnum Qden].
  rewrite !Pos2Z.inj_mul, !Z2Pos.id by assumption.
  set (u := 2 ^ Z.max 0 e) in *. set (v := 2 ^ Z.max 0 (- e)) in *.
  replace (k * u * b + - n * v) with (k * (b * u) - n * v) by ring.
  replace (k' * u * b + - n * v) with (k' * (b * u) - n * v) by ring.
  apply Z.mul_le_mono_nonneg_r; [nia | assumption].
Qed.

Lemma valid_mantissa_bound (s : bool) (m : positive) (e : Z) :
  valid_binary 53 1024 (S754_finite s m e) = true ->
  Zpos m < 2 ^ 53 /\ emin <= e.
Proof.
  unfold valid_binary, bounded, canonical_mantissa, fexp, SpecFloat.emin, emin.
  intros H. apply andb_prop in H. destruct H as [H _]. apply Z.eqb_eq in H.
  rewrite digits2_pos_log2 in H.
  split; [| lia].
  apply Z.log2_lt_pow2; lia.
Qed.

Lemma to_Q_dyadic (s : bool) (m : positive) (e : Z) :
  to_Q (S754_finite s m e) = dyadic (if s then Zneg m else Zpos m) e.
Proof. apply to_Q_finite. Qed.

(** The quotient of two positive integers is rounded to a nearest float. *)
Lemma int_truediv_nearest_pos (n b : Z) (f g : float) :
  0 < n -> 0 < b ->
  int_truediv n b = Ok f ->
  valid_binary 53 1024 g = true -> is_finite g = true ->
  (Qabs (to_Q f - (n # Z.to_pos b)) <= Qabs (to_Q g - (n # Z.to_pos b)))%Q.
Proof.
  intros Hn Hb Hf Hv Hfin.
  rewrite (int_truediv_value n b f Hn Hb Hf).
  set (e := Z.max (quot_log2 n b - (prec - 1)) emin).
  set (x := (n # Z.to_pos b)%Q).
  pose proof (den_at_pos b e Hb) as Hden.
  pose proof (num_at_pos n e Hn) as Hnum.
  assert (Hgrid : forall k, (Qabs (dyadic (rne_div (num_at n e) (den_at b e)) e - x)
                             <= Qabs (dyadic k e - x))%Q).
  { intros k. apply grid_distance; [assumption |].
    apply rne_div_nearest; lia. }
  assert (Hx : (0 < x)%Q) by (unfold x, Qlt; simpl; lia).
  assert (Hbelow : forall q : Q, (q <= 0)%Q -> (Qabs (dyadic 0 e - x) <= Qabs (q - x))%Q).
  { intros q Hq. apply below_is_farther; rewrite dyadic_0; [assumption |].
    apply Qlt_le_weak, Hx. }
  destruct g as [s | s | | s m eg]; try discriminate Hfin.
  - eapply Qle_trans; [apply (Hgrid 0) |]. apply Hbelow. apply Qle_refl.
  - rewrite to_Q_dyadic.
    destruct (valid_mantissa_bound s m eg Hv) as [Hm Heg].
    destruct s.
    + eapply Qle_trans; [apply (Hgrid 0) |]. apply Hbelow.
      unfold dyadic, Qle. cbn [Qnum Qden].
      assert (0 < 2 ^ Z.max 0 eg) by (apply Z.pow_pos_nonneg; lia).
      change (Z.neg m) with (- Z.pos m). nia.
    + destruct (Z.le_gt_cases e eg) as [Hle | Hgt].
      * rewrite (dyadic_refine (Zpos m) eg e Hle). apply Hgrid.
      * (* a float of a finer grid lies below [2^52 * 2^e], hence below the
           quotient *)
        assert (He : e = quot_log2 n b - (prec - 1)) by (subst e; lia).
        pose proof (mantissa_range n b Hn Hb) as [Hlo _]. cbv zeta in Hlo.
        rewrite <- He in Hlo.
        eapply Qle_trans; [apply (Hgrid (2 ^ (prec - 1))) |].
        assert (H1 : (dyadic (Zpos m) eg <= dyadic (2 ^ (prec - 1)) e)%Q).
        { apply dyadic_le; [lia |].
          assert (2 ^ 1 <= 2 ^ (e - eg)) by (apply Z.pow_le_mono_r; lia).
          change (2 ^ 1) with 2 in *. change (2 ^ (prec - 1)) with 4503599627370496.
          change (2 ^ 53) with 9007199254740992 in Hm. nia. }
        assert (H2 : (dyadic (2 ^ (prec - 1)) e <= x)%Q).
        { unfold dyadic, x, Qle. cbn [Qnum Qden].
          assert (P2 : 0 < 2 ^ Z.max 0 (- e)) by (apply Z.pow_pos_nonneg; lia).
          rewrite !Z2Pos.id by assumption.
          unfold num_at, den_at in Hlo. nia. }
        now apply below_is_farther.
Qed.

Lemma int_truediv_is_finite (a b : Z) (f : float) :
  int_truediv a b = Ok f -> is_finite f = true.
Proof.
  unfold int_truediv.
  destruct (b =? 0); [discriminate |].
  destruct (Z.abs a =? 0); [now intros [= <-] |].
  destruct (_ =? 2 ^ prec); cbv beta iota.
  - destruct (emax_mant <? _); [discriminate |]. now intros [= <-].
  - destruct (emax_mant <? _); [discriminate |].
    destruct (rne_div _ _); now intros [= <-].
Qed.

Lemma valid_binary_SFopp (g : float) :
  valid_binary 53 1024 (SFopp g) = valid_binary 53 1024 g.
Proof. destruct g; reflexivity. Qed.

Lemma is_finite_SFopp (g : float) : is_finite (SFopp g) = is_finite g.
Proof. destruct g; reflexivity. Qed.

Lemma Qabs_opp_minus (u v w : Q) :
  (v == - w)%Q -> (Qabs (- u - v) == Qabs (u - w))%Q.
Proof.
  intros H. rewrite H. rewrite <- (Qabs_opp (u - w)).
  apply Qabs_wd. ring.
Qed.

(** Whatever its sign, a quotient is rounded to a nearest float. *)
Lemma int_truediv_nearest (a b : Z) (f g : float) :
  0 < b ->
  int_truediv a b = Ok f ->
  valid_binary 53 1024 g = true -> is_finite g = true ->
  (Qabs (to_Q f - (a # Z.to_pos b)) <= Qabs (to_Q g - (a # Z.to_pos b)))%Q.
Proof.
  intros Hb Hf Hv Hfin.
  destruct (Z.lt_trichotomy a 0) as [Ha | [-> | Ha]].
  - destruct (int_truediv_neg a b f Ha Hf) as (h & Hh & Eh).
    assert (Hx : ((a # Z.to_pos b) == - ((- a) # Z.to_pos b))%Q)
      by (unfold Qeq; simpl; lia).
    rewrite Eh.
    rewrite (Qabs_opp_minus (to_Q h) _ _ Hx).
    assert (Hg : (Qabs (to_Q g - (a # Z.to_pos b))
                  == Qabs (to_Q (SFopp g) - ((- a) # Z.to_pos b)))%Q).
    { rewrite <- (Qabs_opp_minus (to_Q (SFopp g)) _ _ Hx).
      apply Qabs_wd. rewrite to_Q_SFopp. ring. }
    rewrite Hg.
    apply int_truediv_nearest_pos; try assumption; try lia.
    + now rewrite valid_binary_SFopp.
    + now rewrite is_finite_SFopp.
  - rewrite int_truediv_zero in Hf by assumption. injection Hf as <-.
    assert (E : (to_Q (S754_zero false) - (0 # Z.to_pos b) == 0)%Q)
      by (unfold Qeq; simpl; lia).
    rewrite E. apply Qabs_nonneg.
  - now apply int_truediv_nearest_pos.
Qed.

Lemma scale_nearest (x : Z) (d : N) :
  Z.abs x <= 2 ^ 256 -> (d <= 255)%N ->
  exists f, scale x d = Ok f /\ nearest_float (exact_scale x d) f.
Proof.
  intros Hx Hd.
  destruct (scale_accuracy x d Hx Hd) as (f & Hf & Hv & _).
  exists f. split; [exact Hf |]. unfold scale in Hf.
  split; [exact Hv |]. split; [exact (int_truediv_is_finite _ _ _ Hf) |].
  intros g Hg Hfin. unfold exact_scale.
  exact (int_truediv_nearest _ _ f g (pow10_pos d) Hf Hg Hfin).
Qed.

End Nearest.

(** * The amounts against the exact quotients *)

Section NearestAmounts.

Context {F : Type}.
Implicit Types (self : iService F) (swap : LogReceipt).

(** C1, amended. For raw legs of magnitude up to [2^256] and decimals up
    to 255: [_amount0] without the reverse flag is a binary64 float nearest
    to the exact quotient [amount0 / 10^d0], and with the flag one nearest
    to [amount1 / 10^d0]; [_amount1] without the flag is one nearest to
    [amount1 / 10^d1], and with the flag one nearest to [amount0 / 10^d1].
    The flag exchanges the raw legs; the power of ten stays that of the
    output slot. *)
Theorem amounts_are_the_nearest_floats self swap :
  Z.abs (amount0 (args swap)) <= 2 ^ 256 ->
  Z.abs (amount1 (args swap)) <= 2 ^ 256 ->
  (_token0_decimals (_repository self) <= 255)%N ->
  (_token1_decimals (_repository self) <= 255)%N ->
  (exists f, _amount0 self false swap = Ok f /\
             nearest_float (exact_scale (amount0 (args swap))
                                        (_token0_decimals (_repository self))) f) /\
  (exists f, _amount0 self true swap = Ok f /\
             nearest_float (exact_scale (amount1 (args swap))
                                        (_token0_decimals (_repository self))) f) /\
  (exists f, _amount1 self false swap = Ok f /\
             nearest_float (exact_scale (amount1 (args swap))
                                        (_token1_decimals (_repository self))) f) /\
  (exists f, _amount1 self true swap = Ok f /\
             nearest_float (exact_scale (amount0 (args swap))
                                        (_token1_decimals (_repository self))) f).
Proof.
  intros H0 H1 Hd0 Hd1.
  rewrite !_amount0_scale, !_amount1_scale. unfold leg0, leg1.
  repeat split; apply scale_nearest; assumption.
Qed.

End NearestAmounts.

(** * Both filter variants return each log once *)

Section EachLogOnce.

Import PushFilter.




End EachLogOnce.

(** * The amended claims on concrete inputs *)

Section RevisedConcrete.

Import Example.

(** C1 fails as stated: for one raw unit of a one-decimal token, taken
    from [amount1] by the reverse flag, [_amount0] is the float [-0.1],
    which is not the quotient [-1 / 10^1]. *)
Lemma reversed_tenth_is_not_the_quotient :
  exists f,
    _amount0 dime_service true dime_swap = Ok f /\
    ~ (to_Q f == exact_scale (amount1 (args dime_swap))
                             (_token0_decimals (_repository dime_service)))%Q.
Proof.
  eexists. split; [vm_compute; reflexivity |].
  vm_compute. discriminate.
Qed.

Lemma amounts_are_the_nearest_floats_witness :
  Z.abs (amount0 (args swap)) <= 2 ^ 256 /\
  Z.abs (amount1 (args swap)) <= 2 ^ 256 /\
  (_token0_decimals (_repository service) <= 255)%N /\
  (_token1_decimals (_repository service) <= 255)%N /\
  (exists f, _amount0 service false swap = Ok f /\
             nearest_float (exact_scale (amount0 (args swap))
                                        (_token0_decimals (_repository service))) f) /\
  (exists f, _amount0 service true swap = Ok f /\
             nearest_float (exact_scale (amount1 (args swap))
                                        (_token0_decimals (_repository service))) f) /\
  (exists f, _amount1 service false swap = Ok f /\
             nearest_float (exact_scale (amount1 (args swap))
                                        (_token1_decimals (_repository service))) f) /\
  (exists f, _amount1 service true swap = Ok f /\
             nearest_float (exact_scale (amount0 (args swap))
                                        (_token1_decimals (_repository service))) f).
Proof.
  assert (H0 : Z.abs (amount0 (args swap)) <= 2 ^ 256) by (vm_compute; discriminate).
  assert (H1 : Z.abs (amount1 (args swap)) <= 2 ^ 256) by (vm_compute; discriminate).
  assert (Hd0 : (_token0_decimals (_repository service) <= 255)%N)
    by (vm_compute; discriminate).
  assert (Hd1 : (_token1_decimals (_repository service) <= 255)%N)
    by (vm_compute; discriminate).
  do 4 (split; [assumption |]).
  exact (amounts_are_the_nearest_floats service swap H0 H1 Hd0 Hd1).
Defined.


End RevisedConcrete.
